(** * The batch sanitization pipeline of [pipeline.py]

    A shallow embedding of [clean_json_text], [load_checkpoint],
    [save_checkpoint], [process_batch_with_retry] and [process_dataset],
    together with the properties of the span extractor, the batcher, the
    rewrite client, the retry controller, the checkpoint store and the
    reassembler.

    Python [str] values are [string]s, JSON values are the inductive type
    [json], the external generation service is an oracle that answers the
    n-th request for a batch with a [reply], and the three files the
    pipeline touches form the record [world]. *)

From Stdlib Require Import String Ascii ZArith Floats Uint63 DecimalString.
From stdpp Require Import gmap strings list sorting.

Set Warnings "-register-all,-inexact-float,-clear-no-such-hyp".

Local Open Scope string_scope.
Local Open Scope nat_scope.
Local Open Scope list_scope.

(** ** Python string operations *)

Module Str.

(** [s.startswith(p)], returning what follows the prefix. *)
Fixpoint strip_prefix (p s : string) : option string :=
  match p with
  | EmptyString => Some s
  | String a p' =>
      match s with
      | EmptyString => None
      | String b s' => if Ascii.eqb a b then strip_prefix p' s' else None
      end
  end.

Definition startswith (s p : string) : bool :=
  match strip_prefix p s with Some _ => true | None => false end.

(** [needle in s] together with the position: the text before and the text
    after the leftmost occurrence of [needle]. *)
Fixpoint split_on (needle s : string) : option (string * string) :=
  match strip_prefix needle s with
  | Some rest => Some (EmptyString, rest)
  | None =>
      match s with
      | EmptyString => None
      | String c s' =>
          match split_on needle s' with
          | Some (before, rest) => Some (String c before, rest)
          | None => None
          end
      end
  end.

(** [needle in s] *)
Definition contains (needle s : string) : bool :=
  match split_on needle s with Some _ => true | None => false end.

Fixpoint rev_onto (s acc : string) : string :=
  match s with
  | EmptyString => acc
  | String c s' => rev_onto s' (String c acc)
  end.

Definition rev (s : string) : string := rev_onto s EmptyString.

Definition endswith (s p : string) : bool := startswith (rev s) (rev p).

(** [s[n:]] and [s[:-n]] *)
Fixpoint drop_chars (n : nat) (s : string) : string :=
  match n, s with
  | S n', String _ s' => drop_chars n' s'
  | _, _ => s
  end.

Definition drop_last (n : nat) (s : string) : string :=
  rev (drop_chars n (rev s)).

(** [str.isspace] on the characters below 256. *)
Definition is_space (c : ascii) : bool :=
  let n := nat_of_ascii c in
  ((9 <=? n) && (n <=? 13)) || ((28 <=? n) && (n <=? 32))
  || (n =? 133) || (n =? 160).

Fixpoint lstrip (s : string) : string :=
  match s with
  | EmptyString => EmptyString
  | String c s' => if is_space c then lstrip s' else s
  end.

Definition strip (s : string) : string := rev (lstrip (rev (lstrip s))).

(** [s.lower()]; only the letters A to Z matter for the search of an
    ASCII word in the result. *)
Definition lower_char (c : ascii) : ascii :=
  let n := nat_of_ascii c in
  if (65 <=? n) && (n <=? 90) then ascii_of_nat (n + 32) else c.

Fixpoint lower (s : string) : string :=
  match s with
  | EmptyString => EmptyString
  | String c s' => String (lower_char c) (lower s')
  end.

(** [str(n)] for a length. *)
Definition of_nat (n : nat) : string :=
  NilEmpty.string_of_uint (Nat.to_uint n).

End Str.

(** ** JSON values, as [json.loads] produces them *)

Inductive json : Type :=
| JNull
| JBool (b : bool)
| JInt (z : Z)
| JFloat (f : float)
| JStr (s : string)
| JList (items : list json)
| JDict (fields : list (string * json)).

(** ** [clean_json_text] *)

Definition fence_json : string := "```json".
Definition fence : string := "```".

Definition clean_json_text (text : string) : string :=
  let text := Str.strip text in
  let text := if Str.startswith text fence_json then Str.drop_chars 7 text else text in
  let text := if Str.startswith text fence then Str.drop_chars 3 text else text in
  let text := if Str.endswith text fence then Str.drop_last 3 text else text in
  Str.strip text.

(** ** The external service and one attempt of the rewrite client *)

(** What [model.generate_content(...)] followed by [response.text] gives:
    the response text, or an exception [e] with [str(e) = msg]. *)
Inductive reply : Type :=
| Text (text : string)
| Raises (msg : string).

Definition max_retries : nat := 2.

(** [len(batch_results) >= len(batch) * 0.9].  Python compares the integer
    with the double exactly; [ge_090_float] is that computation, and
    [ge_090] the comparison of the exact values, which
    [ge_090_float_agrees] checks to be the same for every size up to 200
    (above the pipeline's [BATCH_SIZE]). *)
Definition ge_090 (m K : nat) : bool := 9 * K <=? 10 * m.

Definition float_of_len (n : nat) : float :=
  PrimFloat.of_uint63 (Uint63.of_Z (Z.of_nat n)).

Definition ge_090_float (m K : nat) : bool :=
  PrimFloat.leb (PrimFloat.mul (float_of_len K) 0.9%float) (float_of_len m).

(** [... or "quota" in error_str.lower()] *)
Definition is_rate_limit (error_str : string) : bool :=
  Str.contains "429" error_str || Str.contains "quota" (Str.lower error_str).

Definition too_few (m K : nat) : string :=
  "Too few items: " +:+ Str.of_nat m +:+ "/" +:+ Str.of_nat K.

(** Truncate or pad to the exact size:
    [batch_results[:len(batch)]], or
    [while len(batch_results) < len(batch):
       batch_results.append(batch[len(batch_results)])]. *)
Definition repair (batch : list string) (batch_results : list json) : list json :=
  if length batch <? length batch_results
  then take (length batch) batch_results
  else batch_results ++ (JStr <$> drop (length batch_results) batch).

Section RewriteClient.

(** [json.loads]: the parsed value, or the message of the
    [JSONDecodeError]. *)
Variable json_loads : string -> json + string.

(** The body of the [try] block: the returned list, or [str(e)] of the
    exception that reaches the handler. *)
Definition attempt (batch : list string) (r : reply) : list json + string :=
  match r with
  | Raises msg => inr msg
  | Text text =>
      match json_loads (clean_json_text text) with
      | inr msg => inr msg
      | inl (JList batch_results) =>
          if ge_090 (length batch_results) (length batch)
          then inl (repair batch batch_results)
          else inr (too_few (length batch_results) (length batch))
      | inl _ => inr "Output is not a list"
      end
  end.

(** The [while retries < max_retries] loop.  [calls] counts the requests
    made so far, [service calls] is the outcome of the next one.  A rate
    limit takes back the increment of [retries], so the loop may never
    end: [fuel] bounds the number of requests, and [None] means the
    bound was reached with the loop still running.  The result comes
    with the number of requests made. *)
Fixpoint retry_loop (service : nat -> reply) (batch : list string)
    (fuel retries calls : nat) : option (list json * nat) :=
  if retries <? max_retries then
    match fuel with
    | O => None
    | S fuel' =>
        match attempt batch (service calls) with
        | inl batch_results => Some (batch_results, S calls)
        | inr error_str =>
            let retries := retries + 1 in
            if is_rate_limit error_str
            then retry_loop service batch fuel' (retries - 1) (S calls)
            else retry_loop service batch fuel' retries (S calls)
        end
    end
  else Some (JStr <$> batch, calls).

Definition process_batch_with_retry (service : nat -> reply)
    (batch : list string) (fuel : nat) : option (list json * nat) :=
  retry_loop service batch fuel 0 0.

End RewriteClient.

(** ** The span extractor *)

Definition open_tag : string := "<TO_GENERALIZE>".
Definition close_tag : string := "</TO_GENERALIZE>".

(** [re.search(r"<TO_GENERALIZE>(.*?)</TO_GENERALIZE>", line, re.DOTALL)]:
    the leftmost opening tag that has a closing tag somewhere after it is
    the first opening tag of the line, and the lazy group stops at the first
    closing tag after it.  The result is the text before the match,
    [match.group(1)], and the text after the match. *)
Definition re_search (line : string) : option (string * string * string) :=
  match Str.split_on open_tag line with
  | None => None
  | Some (before, rest) =>
      match Str.split_on close_tag rest with
      | None => None
      | Some (group1, after) => Some (before, group1, after)
      end
  end.

(** The scan of [enumerate(lines)], from line number [i] on: the pairs
    appended to [dirty_indices] and [dirty_texts]. *)
Fixpoint scan (i : nat) (lines : list string) : list (nat * string) :=
  match lines with
  | [] => []
  | line :: rest =>
      (if Str.contains open_tag line then
         match re_search line with
         | Some (_, group1, _) => [(i, group1)]
         | None => []
         end
       else []) ++ scan (S i) rest
  end.

Definition dirty_indices (lines : list string) : list nat := (scan 0 lines).*1.
Definition dirty_texts (lines : list string) : list string := (scan 0 lines).*2.

(** ** The batcher *)

Definition BATCH_SIZE : nat := 50.

(** [range(0, stop, step)] for a positive [step]. *)
Definition range_step (stop step : nat) : list nat :=
  (fun k => k * step) <$> seq 0 ((stop + step - 1) / step).

(** [l[i:j]] *)
Definition slice {A} (l : list A) (i j : nat) : list A := take (j - i) (drop i l).

(** [[texts[i:i + size] for i in range(0, len(texts), size)]] *)
Definition make_batches {A} (size : nat) (texts : list A) : list (list A) :=
  (fun i => slice texts i (i + size)) <$> range_step (length texts) size.

(** ** The reassembler *)

(** [re.sub(r"<TO_GENERALIZE>.*?</TO_GENERALIZE>", lambda m: safe_text,
    line, flags=re.DOTALL)]: every match, from left to right, is replaced by
    [safe_text] as it is.  A match has at least 31 characters, so the
    length of the line bounds the number of matches. *)
Fixpoint re_sub_upto (n : nat) (safe_text line : string) : string :=
  match n with
  | O => line
  | S n' =>
      match re_search line with
      | None => line
      | Some (before, _, after) =>
          before +:+ safe_text +:+ re_sub_upto n' safe_text after
      end
  end.

Definition re_sub (safe_text line : string) : string :=
  re_sub_upto (String.length line) safe_text line.

Section Pipeline.

Variable json_loads : string -> json + string.

(** [str(x)] for a value [x] that is not a [str]. *)
Variable py_str : json -> string.

Definition str_of (x : json) : string :=
  match x with JStr s => s | _ => py_str x end.

(** The lines under "ensure safe_text is a string". *)
Definition ensure_str (safe_text : json) : string :=
  match safe_text with
  | JStr s => s
  | JList xs => String.concat " " (str_of <$> xs)
  | _ => py_str safe_text
  end.

(** The loop over [enumerate(dirty_indices)], from position [i] on.
    [None] is the [IndexError] of [lines[line_idx]] or
    [cleaned_texts[i]]. *)
Fixpoint reconstruct (i : nat) (indices : list nat) (cleaned : list json)
    (lines : list string) : option (list string) :=
  match indices with
  | [] => Some lines
  | line_idx :: rest =>
      match lines !! line_idx, cleaned !! i with
      | Some original_line, Some safe_text =>
          let new_line := re_sub (ensure_str safe_text) original_line in
          reconstruct (S i) rest cleaned (<[line_idx := new_line]> lines)
      | _, _ => None
      end
  end.

(** ** The checkpoint store and the files *)

Record checkpoint : Type := Checkpoint {
  completed_batches : list nat;
  cleaned_texts : list json
}.

(** The contents of [INPUT_FILE], [CHECKPOINT_FILE] and [OUTPUT_FILE];
    [None] for a file that does not exist. *)
Record world : Type := World {
  input_file : option (list string);
  checkpoint_file : option checkpoint;
  output_file : option (list string)
}.

Definition load_checkpoint (w : world) : checkpoint :=
  match checkpoint_file w with
  | Some c => c
  | None => Checkpoint [] []
  end.

Definition save_checkpoint (completed : list nat) (cleaned : list json)
    (w : world) : world :=
  World (input_file w) (Some (Checkpoint completed cleaned)) (output_file w).

(** ** The driver *)

(** The state of the batch loop: the set [completed_batch_indices], the
    list [cleaned_texts], the files, and the indices of the batches that
    were handed to [process_batch_with_retry]. *)
Record progress : Type := Progress {
  completed : gset nat;
  cleaned : list json;
  files : world;
  processed : list nat
}.

(** The loop over [enumerate(batches)], from [batch_idx] on.  The service
    answers the n-th request for the batch [batch_idx] with
    [service batch_idx n]; [None]: a batch is still being retried after
    [fuel] requests. *)
Fixpoint batch_loop (service : nat -> nat -> reply) (fuel : nat)
    (batch_idx : nat) (batches : list (list string)) (st : progress)
    : option progress :=
  match batches with
  | [] => Some st
  | batch :: rest =>
      if decide (batch_idx ∈ completed st)
      then batch_loop service fuel (S batch_idx) rest st
      else
        match process_batch_with_retry json_loads (service batch_idx) batch fuel with
        | None => None
        | Some (batch_results, _) =>
            let cleaned := cleaned st ++ batch_results in
            let completed := completed st ∪ {[batch_idx]} in
            batch_loop service fuel (S batch_idx) rest
              (Progress completed cleaned
                 (save_checkpoint (elements completed) cleaned (files st))
                 (processed st ++ [batch_idx]))
        end
  end.

(** [(1 - len(cleaned_texts) / total_dirty) * 100 if total_dirty > 0 else 0],
    in double precision as Python computes it. *)
Definition loss_percentage (n_cleaned total_dirty : nat) : float :=
  if 0 <? total_dirty
  then ((1 - float_of_len n_cleaned / float_of_len total_dirty) * 100)%float
  else 0%float.

(** The line printed when the counts differ: the two counts and whether
    the warning for more than 5% loss follows. *)
Record loss_report : Type := LossReport {
  items_processed : nat;
  items_expected : nat;
  more_than_5 : bool
}.

(** How a run goes: it returns, with [cleaned_texts] as the batch loop left
    it, the batches handed to the retry controller, the line about the
    counts and the files (a run without input returns at once, with the
    files as they were); or it stops on an exception; or a batch is still
    being retried when the bound on the requests is reached. *)
Inductive outcome : Type :=
| Finished (accumulated : list json) (ran : list nat)
    (report : option loss_report) (w : world)
| Raised (error : string)
| Running.

Definition process_dataset (service : nat -> nat -> reply) (fuel : nat)
    (w : world) : outcome :=
  match input_file w with
  | None => Finished [] [] None w
  | Some lines =>
      let checkpoint := load_checkpoint w in
      let completed_batch_indices : gset nat :=
        list_to_set (completed_batches checkpoint) in
      let cleaned_texts := cleaned_texts checkpoint in
      let dirty_indices := dirty_indices lines in
      let dirty_texts := dirty_texts lines in
      let total_dirty := length dirty_indices in
      let batches := make_batches BATCH_SIZE dirty_texts in
      match batch_loop service fuel 0 batches
              (Progress completed_batch_indices cleaned_texts w []) with
      | None => Running
      | Some st =>
          let accumulated := cleaned st in
          let report :=
            if decide (length accumulated = total_dirty) then None
            else Some (LossReport (length accumulated) total_dirty
                         (PrimFloat.ltb 5 (loss_percentage (length accumulated) total_dirty))) in
          let padded :=
            accumulated ++ (JStr <$> drop (length accumulated) dirty_texts) in
          match reconstruct 0 dirty_indices padded lines with
          | None => Raised "IndexError"
          | Some lines' =>
              Finished accumulated (processed st) report
                (World (input_file w) None (Some lines'))
          end
      end
  end.

End Pipeline.

(** ** Notions used to state the properties *)

(** The specification's [ceil(0.9 * K)]. *)
Definition ceil_090 (K : nat) : nat := (9 * K + 9) / 10.

Definition all_strings (l : list json) : Prop :=
  Forall (fun v => exists s, v = JStr s) l.

(** Whether the handler takes the outcome of a request for a rate limit. *)
Definition rate_limited (json_loads : string -> json + string)
    (batch : list string) (r : reply) : bool :=
  match attempt json_loads batch r with
  | inl _ => false
  | inr error_str => is_rate_limit error_str
  end.

(** How many of the [n] requests from number [calls] on are taken for a
    rate limit. *)
Fixpoint rate_limits (json_loads : string -> json + string)
    (service : nat -> reply) (batch : list string) (calls n : nat) : nat :=
  match n with
  | O => 0
  | S n' =>
      (if rate_limited json_loads batch (service calls) then 1 else 0)
      + rate_limits json_loads service batch (S calls) n'
  end.

(** [json.loads] on the finitely many texts of a table, with the message of
    Python's decoder for a text that is no JSON at all elsewhere. *)
Fixpoint json_loads_of (table : list (string * json)) (text : string)
    : json + string :=
  match table with
  | [] => inr "Expecting value: line 1 column 1 (char 0)"
  | (t, v) :: table' =>
      if String.eqb t text then inl v else json_loads_of table' text
  end.

Definition quote : string := String (ascii_of_nat 34) EmptyString.

(** The text [["hi"]] in a fenced block, and the texts [[1]] and [[]]. *)
Definition hi_text : string := "[" +:+ quote +:+ "hi" +:+ quote +:+ "]".
Definition hi_fenced : string := "```json
" +:+ hi_text +:+ "
```".

Definition sample_loads : string -> json + string :=
  json_loads_of [(hi_text, JList [JStr "hi"]); ("[1]", JList [JInt 1]); ("[]", JList [])].

(** A value printer for the samples: only integers occur there. *)
Definition sample_str (v : json) : string :=
  match v with
  | JInt z => NilEmpty.string_of_int (Z.to_int z)
  | _ => "None"
  end.

Definition always (r : reply) : nat -> reply := fun _ => r.

(** A service that is rate limited [n] times and then answers [r]. *)
Definition limited_then (n : nat) (r : reply) : nat -> reply :=
  fun k => if k <? n then Raises "429 Resource has been exhausted" else r.

(** A line cut at its delimiter pairs: the text outside the pairs and the
    bodies of the pairs, from left to right. *)
Inductive piece : Type :=
| Plain (s : string)
| Span (body : string).

(** The line with its delimiters in place. *)
Fixpoint render_tagged (pieces : list piece) : string :=
  match pieces with
  | [] => EmptyString
  | Plain s :: rest => s +:+ render_tagged rest
  | Span body :: rest => open_tag +:+ body +:+ close_tag +:+ render_tagged rest
  end.

(** The line with every pair replaced by [safe_text]. *)
Fixpoint render_with (safe_text : string) (pieces : list piece) : string :=
  match pieces with
  | [] => EmptyString
  | Plain s :: rest => s +:+ render_with safe_text rest
  | Span _ :: rest => safe_text +:+ render_with safe_text rest
  end.

(** The reassembled document read off line by line: the k-th flagged line
    takes the k-th rewritten text. *)
Fixpoint rebuilt (py_str : json -> string) (cleaned : list json) (k : nat)
    (lines : list string) : list string :=
  match lines with
  | [] => []
  | line :: rest =>
      match re_search line with
      | Some _ =>
          match cleaned !! k with
          | Some safe_text => re_sub (ensure_str py_str safe_text) line
          | None => line
          end :: rebuilt py_str cleaned (S k) rest
      | None => line :: rebuilt py_str cleaned k rest
      end
  end.

(** The specification's [Reassemble(D, indices, texts)]: the reassembly
    loop on the document itself. *)
Definition reassemble (py_str : json -> string) (lines : list string)
    (indices : list nat) (texts : list json) : option (list string) :=
  reconstruct py_str 0 indices texts lines.

(** A first run on a document, and a run that finds a checkpoint. *)
Definition fresh (lines : list string) : world := World (Some lines) None None.

Definition resuming (lines : list string) (c : checkpoint) : world :=
  World (Some lines) (Some c) None.

Definition hello_doc : list string :=
  ["A: <TO_GENERALIZE>hello</TO_GENERALIZE>"; "B: normal line"].

Definition two_pairs_line : string :=
  "<TO_GENERALIZE>a</TO_GENERALIZE> and <TO_GENERALIZE>b</TO_GENERALIZE>!".

(** The state in which the batch loop starts, from the checkpoint found. *)
Definition loop_start (w : world) : progress :=
  Progress (list_to_set (completed_batches (load_checkpoint w)))
    (cleaned_texts (load_checkpoint w)) w [].

(** The accumulated texts after "if somehow short, pad with originals". *)
Definition pad_with_originals (accumulated : list json) (lines : list string)
    : list json :=
  accumulated ++ (JStr <$> drop (length accumulated) (dirty_texts lines)).

(** What is printed about the counts: nothing when they agree. *)
Definition loss_line (n_cleaned total_dirty : nat) : option loss_report :=
  if decide (n_cleaned = total_dirty) then None
  else Some (LossReport n_cleaned total_dirty
               (PrimFloat.ltb 5 (loss_percentage n_cleaned total_dirty))).

(** The files a run leaves behind when it is stopped after the first [n]
    rounds of its batch loop: the checkpoint is the one saved last. *)
Definition interrupted_run (json_loads : string -> json + string)
    (service : nat -> nat -> reply) (fuel n : nat) (w : world)
    : option world :=
  match input_file w with
  | None => Some w
  | Some lines =>
      files <$> batch_loop json_loads service fuel 0
                  (take n (make_batches BATCH_SIZE (dirty_texts lines)))
                  (loop_start w)
  end.

(** A document with two flagged lines, and a checkpoint left by a run on an
    earlier, shorter version of it: batch 0 done, one text accumulated. *)
Definition grown_doc : list string :=
  ["<TO_GENERALIZE>one</TO_GENERALIZE>"; "<TO_GENERALIZE>two</TO_GENERALIZE>"].

Definition stale_checkpoint : checkpoint := Checkpoint [0] [JStr "uno"].

(** A document of 101 flagged lines: three batches of 50, 50 and 1. *)
Definition long_doc : list string :=
  replicate 101 "<TO_GENERALIZE>x</TO_GENERALIZE>".

(** The two acceptance tests agree on all sizes up to [n]. *)
Definition agree_up_to (n : nat) : bool :=
  forallb (fun K =>
    forallb (fun m => Bool.eqb (ge_090_float m K) (ge_090 m K)) (seq 0 (K + 2)))
    (seq 0 (S n)).

(** A string of whitespace only, and a string that neither starts nor ends
    with whitespace. *)
Definition blank (s : string) : Prop := Str.lstrip s = EmptyString.

Definition no_outer_space (s : string) : Prop :=
  Str.lstrip s = s /\ Str.lstrip (Str.rev s) = Str.rev s.

(** No message "Too few items: m/K" with [m <= K <= n] is taken for a rate
    limit. *)
Definition too_few_counted_up_to (n : nat) : bool :=
  forallb (fun K =>
    forallb (fun m => negb (is_rate_limit (too_few m K))) (seq 0 (S K)))
    (seq 0 (S n)).

(** * The message processor of [jsonparse.py]

    [InstagramMessageProcessor] on the parsed export: a message is the JSON
    object of the export with its keys [sender_name] and [timestamp_ms] and,
    when present, [content], [photos] and [share]. *)

Module Instagram.

Record message : Type := Message {
  sender_name : string;
  timestamp_ms : Z;
  content : option string;
  photos : bool;
  share : bool
}.

(** The fields that [__init__] sets.  [start_timestamp_ms] is the timestamp
    of [start_date] in milliseconds, 0 without a start date. *)
Record processor : Type := Processor {
  your_name : string;
  time_gap_ms : float;
  start_timestamp_ms : Z
}.

Definition init (your_name : string) (time_gap_hours : float)
    (start_date_ms : option Z) : processor :=
  Processor your_name (time_gap_hours * 3600 * 1000)%float
    (match start_date_ms with Some t => t | None => 0%Z end).

(** [time_diff > bound] for an integer and a double; exact while the
    difference is below 2^53 milliseconds. *)
Definition exceeds (time_diff : Z) (bound : float) : bool :=
  PrimFloat.ltb bound (PrimFloat.of_uint63 (Uint63.of_Z time_diff)).

Definition greetings : list string :=
  ["hey"; "hi"; "yo"; "sup"; "hello"; "ayy"; "aye"].

Definition is_new_conversation (self : processor)
    (prev_msg curr_msg : message) : bool :=
  let time_diff := Z.abs (timestamp_ms prev_msg - timestamp_ms curr_msg) in
  if exceeds time_diff (time_gap_ms self) then true
  else
    let content :=
      Str.strip (Str.lower (match content curr_msg with
                            | Some c => c
                            | None => EmptyString
                            end)) in
    if exceeds time_diff (time_gap_ms self / 2)%float
    then existsb (Str.startswith content) greetings
    else false.

Definition skip_phrases : list string :=
  ["liked a message"; "reacted"; "you sent an attachment"; "unsent a message"].

Definition clean_message_content (msg : message) : option string :=
  match content msg with
  | Some c =>
      if existsb (fun phrase => Str.contains phrase (Str.lower c)) skip_phrases
      then None
      else Some (Str.strip c)
  | None =>
      if photos msg then Some "[sent photo]"
      else if share msg then Some "[shared link]"
      else None
  end.

(** [sorted(messages, key=lambda x: x['timestamp_ms'])]: the sort is
    stable, so its result is the one of this insertion sort, which puts a
    message before the later messages of the same time. *)
Fixpoint insert_by_time (m : message) (l : list message) : list message :=
  match l with
  | [] => [m]
  | x :: l' =>
      if (timestamp_ms m <=? timestamp_ms x)%Z then m :: x :: l'
      else x :: insert_by_time m l'
  end.

Definition sorted_by_time (l : list message) : list message :=
  foldr insert_by_time [] l.

(** The loop [for i in range(1, len(messages))], with [messages[i-1]], the
    conversation being built and the messages still to come; then the
    last conversation is added. *)
Fixpoint segment_from (self : processor) (prev : message)
    (current_convo : list message) (rest : list message)
    : list (list message) :=
  match rest with
  | [] => match current_convo with [] => [] | _ => [current_convo] end
  | m :: rest' =>
      if is_new_conversation self prev m
      then current_convo :: segment_from self m [m] rest'
      else segment_from self m (current_convo ++ [m]) rest'
  end.

Definition segment_conversations (self : processor) (messages : list message)
    : list (list message) :=
  match messages with
  | [] => []
  | _ =>
      let messages :=
        filter (fun msg => (start_timestamp_ms self <= timestamp_ms msg)%Z)
          messages in
      match sorted_by_time messages with
      | [] => []
      | first :: rest => segment_from self first [first] rest
      end
  end.

Inductive role : Type := Assistant | User.

(** A formatted message: [role], [content], and whether [metadata] has
    [is_conversation_start]. *)
Record training_message : Type := TrainingMessage {
  msg_role : role;
  msg_content : string;
  is_conversation_start : bool
}.

Record training_conversation : Type := TrainingConversation {
  conversation_id : string;
  messages : list training_message;
  message_count : nat
}.

Definition newline : string := String (ascii_of_nat 10) EmptyString.

(** The block under "save previous accumulated message": nothing is added
    when [accumulated_content] is empty or [prev_sender] is [None] or the
    empty string. *)
Definition flush (self : processor) (formatted_messages : list training_message)
    (prev_sender : option string) (accumulated_content : list string)
    : list training_message :=
  match accumulated_content, prev_sender with
  | [], _ => formatted_messages
  | _, None => formatted_messages
  | _ :: _, Some sender =>
      if String.eqb sender EmptyString then formatted_messages
      else
        let r := if String.eqb sender (your_name self) then Assistant else User in
        let combined := String.concat newline accumulated_content in
        let start := match formatted_messages with [] => true | _ => false end in
        let combined :=
          match r with
          | User => open_tag +:+ combined +:+ close_tag
          | Assistant => combined
          end in
        formatted_messages ++ [TrainingMessage r combined start]
  end.

(** The loop over the messages of one conversation, and the last
    accumulated message. *)
Fixpoint format_loop (self : processor) (conversation : list message)
    (formatted_messages : list training_message)
    (prev_sender : option string) (accumulated_content : list string)
    : list training_message :=
  match conversation with
  | [] => flush self formatted_messages prev_sender accumulated_content
  | msg :: rest =>
      match clean_message_content msg with
      | None =>
          format_loop self rest formatted_messages prev_sender accumulated_content
      | Some c =>
          let sender := sender_name msg in
          if decide (Some sender = prev_sender)
          then format_loop self rest formatted_messages prev_sender
                 (accumulated_content ++ [c])
          else format_loop self rest
                 (flush self formatted_messages prev_sender accumulated_content)
                 (Some sender) [c]
      end
  end.

Definition is_user (m : training_message) : bool :=
  match msg_role m with User => true | Assistant => false end.

Definition is_assistant (m : training_message) : bool :=
  match msg_role m with Assistant => true | User => false end.

(** [f"conv_{conv_idx:04d}"] *)
Definition conv_id (conv_idx : nat) : string :=
  let digits := Str.of_nat conv_idx in
  "conv_" +:+ String.concat EmptyString
                (replicate (4 - String.length digits) "0") +:+ digits.

(** The loop over [enumerate(conversations)], from [conv_idx] on. *)
Fixpoint format_from (self : processor) (conv_idx : nat)
    (conversations : list (list message)) : list training_conversation :=
  match conversations with
  | [] => []
  | conversation :: rest =>
      let formatted_messages := format_loop self conversation [] None [] in
      let has_user := existsb is_user formatted_messages in
      let has_assistant := existsb is_assistant formatted_messages in
      (if has_user && has_assistant && (2 <=? length formatted_messages)
       then [TrainingConversation (conv_id conv_idx) formatted_messages
               (length formatted_messages)]
       else [])
      ++ format_from self (S conv_idx) rest
  end.

Definition format_for_training (self : processor)
    (conversations : list (list message)) (other_person_name : string)
    : list training_conversation :=
  format_from self 0 conversations.

(** Samples: a short exchange, an hour and a half apart from a second
    one. *)
Definition me : processor := init "Me" 1 None.

Definition sample_thread : list message :=
  [ Message "Me" 9000000 (Some "see you") false false;
    Message "Ann" 1000 (Some "  hey there ") false false;
    Message "Me" 2000 (Some "hi Ann") false false;
    Message "Ann" 3000 (Some "Ann liked a message") false false;
    Message "Ann" 8000000 None true false ].

(** A thread in which a third sender has an empty name. *)
Definition nameless_thread : list message :=
  [ Message "Me" 1000 (Some "one") false false;
    Message "" 2000 (Some "two") false false;
    Message "Me" 3000 (Some "three") false false;
    Message "Ann" 4000 (Some "four") false false ].

(** Notions for the properties: the order of time, a conversation without a
    break inside, and conversations with a break between each one and
    the next. *)
Definition by_time (a b : message) : Prop :=
  (timestamp_ms a <= timestamp_ms b)%Z.

Definition no_break (self : processor) (conversation : list message) : Prop :=
  forall j a b,
    conversation !! j = Some a -> conversation !! S j = Some b ->
    is_new_conversation self a b = false.

Definition breaks_between (self : processor)
    (conversations : list (list message)) : Prop :=
  forall i c1 c2,
    conversations !! i = Some c1 -> conversations !! S i = Some c2 ->
    exists a b,
      last c1 = Some a /\ head c2 = Some b
      /\ is_new_conversation self a b = true.

(** The text of a formatted message, from the cleaned texts of the messages
    that it combines. *)
Definition combined_as (r : role) (texts : list string) : string :=
  match r with
  | User => open_tag +:+ String.concat newline texts +:+ close_tag
  | Assistant => String.concat newline texts
  end.

Definition role_of (self : processor) (sender : string) : role :=
  if String.eqb sender (your_name self) then Assistant else User.

(** A formatted message combines cleaned texts of messages of the
    conversation that one sender, with a name, has sent. *)
Definition combines (self : processor) (conversation : list message)
    (tm : training_message) : Prop :=
  exists sender texts,
    sender <> EmptyString /\ texts <> []
    /\ (forall t, t ∈ texts ->
          exists msg, msg ∈ conversation /\ sender_name msg = sender
                      /\ clean_message_content msg = Some t)
    /\ msg_role tm = role_of self sender
    /\ msg_content tm = combined_as (role_of self sender) texts.

(** No assistant message follows an assistant message. *)
Definition no_assistant_twice (formatted : list training_message) : Prop :=
  forall i a b,
    formatted !! i = Some a -> formatted !! S i = Some b ->
    ~ (msg_role a = Assistant /\ msg_role b = Assistant).

(** The start of the conversation is marked on the first message alone. *)
Definition start_marked_once (formatted : list training_message) : Prop :=
  forall i tm,
    formatted !! i = Some tm -> (is_conversation_start tm = true <-> i = 0).

End Instagram.

(** The text of a file, as text mode gives it (on reading, the line ends
    have been turned into line feeds): [f.writelines(lines)] writes the
    strings one after the other and adds no line ends of its own, and
    [f.readlines()] cuts the text after every line feed, the last line
    being the rest when it is not empty. *)
Definition line_feed : string := String (ascii_of_nat 10) EmptyString.

Definition writelines (lines : list string) : string :=
  String.concat EmptyString lines.

Fixpoint readlines_from (current text : string) : list string :=
  match text with
  | EmptyString =>
      match current with EmptyString => [] | _ => [current] end
  | String c text' =>
      if Ascii.eqb c (ascii_of_nat 10)
      then (current +:+ line_feed) :: readlines_from EmptyString text'
      else readlines_from (current +:+ String c EmptyString) text'
  end.

Definition readlines (text : string) : list string :=
  readlines_from EmptyString text.

(** The two lines of [hello_doc] as [readlines] gives them, and an answer
    whose one string has a line feed in it: the JSON text
    [["hi\nthere"]]. *)
Definition hello_file : list string :=
  ["A: <TO_GENERALIZE>hello</TO_GENERALIZE>" +:+ line_feed;
   "B: normal line" +:+ line_feed].

Definition two_lines_text : string :=
  "[" +:+ quote +:+ "hi\nthere" +:+ quote +:+ "]".

Definition two_lines_loads : string -> json + string :=
  json_loads_of
    [(two_lines_text, JList [JStr ("hi" +:+ line_feed +:+ "there")])].

(** * Properties *)

(** ** The acceptance test in double precision *)

Lemma agree_up_to_200 : agree_up_to 200 = true.
Proof. vm_compute. reflexivity. Qed.

Lemma agree_up_to_spec (n m K : nat) :
  agree_up_to n = true -> K <= n -> m <= K + 1 ->
  ge_090_float m K = ge_090 m K.
Proof.
  unfold agree_up_to. intros H HK Hm.
  rewrite forallb_forall in H.
  assert (HinK : In K (seq 0 (S n))) by (apply in_seq; lia).
  specialize (H K HinK). rewrite forallb_forall in H.
  assert (Hinm : In m (seq 0 (K + 2))) by (apply in_seq; lia).
  specialize (H m Hinm). now apply Bool.eqb_prop in H.
Qed.

Lemma ge_090_float_agrees (m K : nat) :
  K <= 200 -> m <= K + 1 -> ge_090_float m K = ge_090 m K.
Proof. apply agree_up_to_spec, agree_up_to_200. Qed.

Lemma ge_090_ceil (m K : nat) : ge_090 m K = true <-> ceil_090 K <= m.
Proof.
  unfold ge_090, ceil_090. rewrite Nat.leb_le.
  pose proof (Nat.div_mod_eq (9 * K + 9) 10) as E.
  pose proof (Nat.mod_upper_bound (9 * K + 9) 10 ltac:(lia)) as B.
  revert E B. generalize ((9 * K + 9) / 10) ((9 * K + 9) mod 10).
  intros q r E B. lia.
Qed.

(** ** The rewrite client: repair to the exact size *)

Section ClientFacts.

Variable json_loads : string -> json + string.

Lemma repair_length (batch : list string) (results : list json) :
  length (repair batch results) = length batch.
Proof.
  unfold repair. destruct (Nat.ltb_spec (length batch) (length results)).
  - rewrite length_take. lia.
  - rewrite length_app, length_fmap, length_drop. lia.
Qed.

Lemma repair_kept (batch : list string) (results : list json) (i : nat) :
  i < length results -> i < length batch ->
  repair batch results !! i = results !! i.
Proof.
  intros Hr Hb. unfold repair.
  destruct (Nat.ltb_spec (length batch) (length results)).
  - now rewrite lookup_take_lt.
  - now rewrite lookup_app_l.
Qed.

Lemma repair_padded (batch : list string) (results : list json) (i : nat) :
  length results <= i ->
  length results <= length batch ->
  repair batch results !! i = JStr <$> batch !! i.
Proof.
  intros Hi Hm. unfold repair.
  destruct (Nat.ltb_spec (length batch) (length results)); [lia|].
  rewrite lookup_app_r by lia. rewrite list_lookup_fmap, lookup_drop.
  do 2 f_equal. lia.
Qed.

Lemma attempt_length (batch : list string) (r : reply) (results : list json) :
  attempt json_loads batch r = inl results -> length results = length batch.
Proof.
  unfold attempt. destruct r as [text|msg]; [|discriminate].
  destruct (json_loads (clean_json_text text)) as [[]|]; try discriminate.
  destruct (ge_090 _ _); [|discriminate].
  intros [= <-]. apply repair_length.
Qed.

Lemma retry_loop_length service batch fuel retries calls r n :
  retry_loop json_loads service batch fuel retries calls = Some (r, n) ->
  length r = length batch.
Proof.
  revert retries calls. induction fuel as [|fuel IH]; intros retries calls; simpl.
  - destruct (retries <? max_retries); [discriminate|].
    intros [= <- _]. apply length_fmap.
  - destruct (retries <? max_retries).
    + destruct (attempt json_loads batch (service calls)) as [res|msg] eqn:E.
      * intros [= <- _]. eapply attempt_length, E.
      * destruct (is_rate_limit msg); apply IH.
    + intros [= <- _]. apply length_fmap.
Qed.

(** Unfolding of one failed request. *)
Lemma retry_loop_failed service batch fuel retries calls msg :
  retries < max_retries ->
  attempt json_loads batch (service calls) = inr msg ->
  retry_loop json_loads service batch (S fuel) retries calls =
  retry_loop json_loads service batch fuel
    (if is_rate_limit msg then retries else S retries) (S calls).
Proof.
  intros Hlt E. simpl.
  destruct (Nat.ltb_spec retries max_retries); [|lia].
  rewrite E. destruct (is_rate_limit msg); f_equal; lia.
Qed.

Lemma retry_loop_exhausted service batch fuel retries calls :
  max_retries <= retries ->
  retry_loop json_loads service batch fuel retries calls =
  Some (JStr <$> batch, calls).
Proof.
  intros Hge. destruct fuel; simpl;
    destruct (Nat.ltb_spec retries max_retries); (lia || reflexivity).
Qed.

(** Enough requests that are not rate limited end the loop. *)
Lemma retry_loop_returns service batch fuel retries calls :
  rate_limits json_loads service batch calls fuel + max_retries
    <= fuel + retries ->
  exists r, retry_loop json_loads service batch fuel retries calls = Some r.
Proof.
  revert retries calls. induction fuel as [|fuel IH]; intros retries calls H.
  - simpl in H. rewrite retry_loop_exhausted by lia. eauto.
  - destruct (Nat.lt_ge_cases retries max_retries) as [Hlt|Hge].
    2:{ rewrite retry_loop_exhausted by lia. eauto. }
    simpl in H. unfold rate_limited in H.
    destruct (attempt json_loads batch (service calls)) as [res|msg] eqn:E.
    + simpl. destruct (Nat.ltb_spec retries max_retries); [|lia].
      rewrite E. eauto.
    + rewrite (retry_loop_failed _ _ _ _ _ msg Hlt E).
      apply IH. destruct (is_rate_limit msg); lia.
Qed.

(** The number of requests made is within the bound. *)
Lemma retry_loop_calls service batch fuel retries calls r n :
  retry_loop json_loads service batch fuel retries calls = Some (r, n) ->
  calls <= n <= calls + fuel.
Proof.
  revert retries calls. induction fuel as [|fuel IH]; intros retries calls; simpl.
  - destruct (retries <? max_retries); [discriminate|].
    intros [= _ <-]. lia.
  - destruct (retries <? max_retries).
    + destruct (attempt json_loads batch (service calls)) as [res|msg].
      * intros [= _ <-]. lia.
      * destruct (is_rate_limit msg); intros H; apply IH in H; lia.
    + intros [= _ <-]. lia.
Qed.

(** A rate limit on every request keeps the loop running. *)
Lemma rate_limit_keeps_loop_running batch msg fuel calls :
  is_rate_limit msg = true ->
  retry_loop json_loads (always (Raises msg)) batch fuel 0 calls = None.
Proof.
  intros Hrl. revert calls. induction fuel as [|fuel IH]; intros calls.
  - reflexivity.
  - rewrite (retry_loop_failed _ _ _ _ _ msg)
      by (try reflexivity; unfold max_retries; lia).
    rewrite Hrl. apply IH.
Qed.

End ClientFacts.

(** ** The retry controller *)

(** C1 as stated fails: the service answers [[1]] to a batch of one text,
    the answer is accepted, and the result holds an integer, not a string. *)
Lemma result_not_all_strings :
  ~ (forall (json_loads : string -> json + string) (service : nat -> reply)
       (batch : list string) (fuel : nat) (r : list json) (n : nat),
        1 <= length batch ->
        process_batch_with_retry json_loads service batch fuel = Some (r, n) ->
        all_strings r /\ length r = length batch).
Proof.
  intros H.
  destruct (H sample_loads (always (Text "[1]")) ["hello"] 2 [JInt 1] 1)
    as [Hs _]; [simpl; lia | reflexivity |].
  apply Forall_cons in Hs as [[s Hs] _]. discriminate.
Qed.

(** C4: a parsed list of m items with m >= ceil(0.9 K) is accepted and
    repaired to exactly K items, the items of the answer kept in place up to
    position K and the missing trailing positions filled with the original
    input at the same position; with fewer items the attempt ends in the
    error "Too few items: m/K", which the retry loop handles: it goes on
    to the next request, with the error counted unless its message is taken
    for a rate limit. *)
Theorem attempt_accepts_and_repairs
    (json_loads : string -> json + string) (batch : list string)
    (text : string) (results : list json) :
  json_loads (clean_json_text text) = inl (JList results) ->
  let K := length batch in
  let m := length results in
  (ceil_090 K <= m ->
     exists repaired,
       attempt json_loads batch (Text text) = inl repaired
       /\ length repaired = K
       /\ (forall i, i < m -> i < K -> repaired !! i = results !! i)
       /\ (forall i, m <= i -> repaired !! i = JStr <$> batch !! i))
  /\ (m < ceil_090 K ->
        attempt json_loads batch (Text text) = inr (too_few m K)
        /\ forall service fuel retries calls,
             service calls = Text text -> retries < max_retries ->
             retry_loop json_loads service batch (S fuel) retries calls =
             retry_loop json_loads service batch fuel
               (if is_rate_limit (too_few m K) then retries else S retries)
               (S calls)).
Proof.
  intros Hload K m. subst K m. split; intros Hm.
  - exists (repair batch results). unfold attempt. rewrite Hload.
    apply ge_090_ceil in Hm as Hacc. rewrite Hacc.
    split; [reflexivity|]. split; [apply repair_length|]. split.
    + intros i Hi HK. now apply repair_kept.
    + intros i Hi.
      destruct (Nat.le_gt_cases (length results) (length batch)) as [Hle|Hgt].
      * now apply repair_padded.
      * unfold repair. destruct (Nat.ltb_spec (length batch) (length results)); [|lia].
        rewrite lookup_take_ge by lia.
        rewrite (lookup_ge_None_2 batch i) by lia. reflexivity.
  - assert (E : attempt json_loads batch (Text text)
                = inr (too_few (length results) (length batch))).
    { unfold attempt. rewrite Hload.
      destruct (ge_090 (length results) (length batch)) eqn:Hacc; [|reflexivity].
      apply ge_090_ceil in Hacc. lia. }
    split; [exact E|].
    intros service fuel retries calls Hs Hr.
    apply retry_loop_failed; [exact Hr | now rewrite Hs].
Qed.

Lemma attempt_accepts_and_repairs_witness :
  sample_loads (clean_json_text hi_fenced) = inl (JList [JStr "hi"])
  /\ exists repaired,
       attempt sample_loads ["hello"] (Text hi_fenced) = inl repaired
       /\ length repaired = 1.
Proof.
  split; [reflexivity|].
  destruct (attempt_accepts_and_repairs sample_loads ["hello"] hi_fenced
              [JStr "hi"] eq_refl) as [Hacc _].
  destruct (Hacc ltac:(vm_compute; lia)) as (repaired & E & Hlen & _).
  exists repaired. split; [exact E | exact Hlen].
Defined.

(** C5: when every request for a batch fails with an error that is not a
    rate limit, [process_batch_with_retry] makes exactly [max_retries] (2)
    requests and returns the original texts, unchanged and in order. *)
Theorem fallback_after_max_retries
    (json_loads : string -> json + string) (service : nat -> reply)
    (batch : list string) (fuel : nat) :
  max_retries <= fuel ->
  (forall n, exists error_str,
      attempt json_loads batch (service n) = inr error_str
      /\ is_rate_limit error_str = false) ->
  process_batch_with_retry json_loads service batch fuel
    = Some (JStr <$> batch, max_retries).
Proof.
  intros Hfuel Hfail. unfold process_batch_with_retry.
  destruct fuel as [|[|fuel]]; [unfold max_retries in Hfuel; lia ..|].
  destruct (Hfail 0) as (e0 & E0 & R0). destruct (Hfail 1) as (e1 & E1 & R1).
  rewrite (retry_loop_failed _ _ _ _ _ _ e0) by (try exact E0; unfold max_retries; lia).
  rewrite R0.
  rewrite (retry_loop_failed _ _ _ _ _ _ e1) by (try exact E1; unfold max_retries; lia).
  rewrite R1. now rewrite retry_loop_exhausted.
Qed.

Lemma fallback_after_max_retries_witness :
  process_batch_with_retry sample_loads (always (Raises "500 Internal error"))
    ["hello"; "world"] 5
  = Some ([JStr "hello"; JStr "world"], 2).
Proof.
  apply (fallback_after_max_retries sample_loads
           (always (Raises "500 Internal error")) ["hello"; "world"] 5).
  - unfold max_retries. lia.
  - intros n. exists "500 Internal error". split; reflexivity.
Defined.

(** C6 as stated fails: under a rate limit that never lifts, no number of
    requests brings [process_batch_with_retry] to a result. *)
Lemma persistent_rate_limit_never_returns :
  ~ (exists fuel r,
       process_batch_with_retry sample_loads
         (always (Raises "429 Resource has been exhausted")) ["hello"] fuel
       = Some r).
Proof.
  intros (fuel & r & H). unfold process_batch_with_retry in H.
  now rewrite rate_limit_keeps_loop_running in H by reflexivity.
Qed.

(** C6 (as amended): [process_batch_with_retry] returns a result as soon as
    two of the requests it may make are not taken for a rate limit: if at
    most N of the first N + 2 outcomes are rate limits, it returns within
    N + 2 requests.  (Under a rate limit that never lifts it does not
    return.) *)
Theorem process_batch_with_retry_returns
    (json_loads : string -> json + string) (service : nat -> reply)
    (batch : list string) (N : nat) :
  rate_limits json_loads service batch 0 (N + max_retries) <= N ->
  exists r n,
    process_batch_with_retry json_loads service batch (N + max_retries)
      = Some (r, n)
    /\ n <= N + max_retries.
Proof.
  intros H. unfold process_batch_with_retry.
  destruct (retry_loop_returns json_loads service batch (N + max_retries) 0 0)
    as [[r n] E]; [lia|].
  exists r, n. split; [exact E|].
  eapply retry_loop_calls in E. lia.
Qed.

Lemma process_batch_with_retry_returns_witness :
  rate_limits sample_loads (limited_then 3 (Text hi_fenced)) ["hello"] 0 5 <= 3
  /\ exists r n,
       process_batch_with_retry sample_loads (limited_then 3 (Text hi_fenced))
         ["hello"] 5 = Some (r, n)
       /\ n <= 5.
Proof.
  assert (H : rate_limits sample_loads (limited_then 3 (Text hi_fenced))
                ["hello"] 0 (3 + max_retries) <= 3) by (vm_compute; lia).
  split; [exact H|].
  exact (process_batch_with_retry_returns sample_loads
           (limited_then 3 (Text hi_fenced)) ["hello"] 3 H).
Defined.

(** The rate limits do not use up the retry budget: after three of them the
    answer is still accepted, at the fourth request. *)
Example rate_limited_three_times_then_served :
  process_batch_with_retry sample_loads (limited_then 3 (Text hi_fenced))
    ["hello"] 5 = Some ([JStr "hi"], 4).
Proof. reflexivity. Qed.

(** The message of an undersized answer can itself be taken for a rate
    limit: 4290 texts answered by an empty list. *)
Example too_few_taken_for_rate_limit :
  is_rate_limit (too_few 0 4290) = true.
Proof. reflexivity. Qed.

(** The specification's example of the repair: ten texts and nine items. *)
Example repair_nine_of_ten (batch : list string) (results : list json) :
  length batch = 10 -> length results = 9 ->
  ge_090 (length results) (length batch) = true
  /\ length (repair batch results) = 10
  /\ repair batch results !! 9 = JStr <$> batch !! 9.
Proof.
  intros HK Hm. rewrite HK, Hm. split; [reflexivity|].
  split; [now rewrite repair_length|].
  apply repair_padded; lia.
Qed.

Example eight_of_ten_rejected : ge_090 8 10 = false.
Proof. reflexivity. Qed.

(** ** The batcher *)

Section BatcherFacts.

Context {A : Type}.
Implicit Types (texts : list A) (size : nat).

Lemma make_batches_chunks texts size :
  make_batches size texts =
  (fun k => take size (drop (k * size) texts))
    <$> seq 0 ((length texts + size - 1) / size).
Proof.
  unfold make_batches, range_step, slice. rewrite <- list_fmap_compose.
  apply list_fmap_ext. intros _ k _. simpl. do 2 f_equal. lia.
Qed.

Lemma concat_chunks texts size n :
  concat ((fun k => take size (drop (k * size) texts)) <$> seq 0 n)
  = take (n * size) texts.
Proof.
  induction n as [|n IH]; [reflexivity|].
  rewrite seq_S, fmap_app, concat_app, IH. simpl.
  rewrite app_nil_r, take_take_drop. f_equal. lia.
Qed.

(** The number of batches: the least n with [length texts <= n * size]. *)
Lemma batch_count texts size :
  1 <= size ->
  let n := (length texts + size - 1) / size in
  length texts <= n * size /\ (0 < length texts -> (n - 1) * size < length texts /\ 0 < n).
Proof.
  intros Hs n. subst n.
  pose proof (Nat.div_mod_eq (length texts + size - 1) size) as E.
  pose proof (Nat.mod_upper_bound (length texts + size - 1) size ltac:(lia)) as Hr.
  revert E Hr.
  generalize ((length texts + size - 1) / size) ((length texts + size - 1) mod size).
  intros q r E Hr. split; [nia|]. intros Hpos.
  destruct q as [|q]; [nia|]. split; [|lia].
  replace (S q - 1) with q by lia. nia.
Qed.

Lemma make_batches_lookup texts size i batch :
  make_batches size texts !! i = Some batch ->
  i < (length texts + size - 1) / size
  /\ batch = take size (drop (i * size) texts).
Proof.
  rewrite make_batches_chunks, list_lookup_fmap.
  destruct (seq 0 _ !! i) as [k|] eqn:E; [|discriminate].
  apply lookup_seq in E as [-> Hi]. simpl. intros [= <-]. auto.
Qed.

Lemma length_make_batches texts size :
  length (make_batches size texts) = (length texts + size - 1) / size.
Proof. now rewrite make_batches_chunks, length_fmap, length_seq. Qed.

End BatcherFacts.

(** C8: for every sequence of texts and every batch size B >= 1, the
    batches taken in order concatenate to the sequence, every batch but the
    last has exactly B items, and the last batch has [total mod B] items,
    or B items when B divides the total. *)
Theorem make_batches_partition {A : Type} (texts : list A) (size : nat) :
  1 <= size ->
  let batches := make_batches size texts in
  concat batches = texts
  /\ (forall i batch,
        batches !! i = Some batch -> i + 1 < length batches ->
        length batch = size)
  /\ (forall batch,
        last batches = Some batch ->
        length batch =
          if length texts mod size =? 0 then size else length texts mod size).
Proof.
  intros Hs batches. subst batches.
  destruct (batch_count texts size Hs) as [Hup Hlow].
  split; [|split].
  - rewrite make_batches_chunks, concat_chunks. now apply take_ge.
  - intros i batch Hi Hlt. rewrite length_make_batches in Hlt.
    apply make_batches_lookup in Hi as [_ ->].
    rewrite length_take, length_drop.
    destruct (Nat.eq_dec (length texts) 0) as [E|E].
    { rewrite E in Hlt. rewrite Nat.div_small in Hlt by lia. lia. }
    destruct Hlow as [Hlow _]; [lia|].
    revert Hlt Hlow. generalize ((length texts + size - 1) / size).
    intros n Hlt Hlow. nia.
  - intros batch Hlast. rewrite last_lookup, length_make_batches in Hlast.
    apply make_batches_lookup in Hlast as [Hi ->].
    rewrite length_take, length_drop.
    destruct (Nat.eq_dec (length texts) 0) as [E0|E0].
    { rewrite E0 in Hi. rewrite Nat.div_small in Hi by lia. lia. }
    destruct Hlow as [Hlow Hn]; [lia|].
    pose proof (Nat.div_mod_eq (length texts) size) as E.
    pose proof (Nat.mod_upper_bound (length texts) size ltac:(lia)) as Hr.
    revert Hi Hup Hlow Hn E Hr.
    generalize ((length texts + size - 1) / size) (length texts / size)
      (length texts mod size).
    intros n q r Hi Hup Hlow Hn E Hr.
    replace (Nat.pred n) with (n - 1) by lia.
    destruct (Nat.eqb_spec r 0) as [Hz|Hz].
    + assert (q = n) by nia. subst. nia.
    + assert (q = n - 1) by nia. subst. nia.
Qed.

Lemma make_batches_partition_witness :
  concat (make_batches 3 [1; 2; 3; 4; 5; 6; 7]) = [1; 2; 3; 4; 5; 6; 7].
Proof.
  apply (make_batches_partition [1; 2; 3; 4; 5; 6; 7] 3). lia.
Defined.

Example seven_in_threes :
  make_batches 3 [1; 2; 3; 4; 5; 6; 7] = [[1; 2; 3]; [4; 5; 6]; [7]].
Proof. reflexivity. Qed.

(** ** Strings: concatenation and search *)

Section StringFacts.

Implicit Types (s t u p needle line : string).

Lemma app_cons (c : ascii) s t : String c s +:+ t = String c (s +:+ t).
Proof. reflexivity. Qed.

Lemma app_nil_l s : EmptyString +:+ s = s.
Proof. reflexivity. Qed.

Lemma app_assoc_str s t u : (s +:+ t) +:+ u = s +:+ t +:+ u.
Proof.
  induction s as [|c s IH]; [reflexivity|].
  rewrite !app_cons. now rewrite IH.
Qed.

Lemma app_nil_r_str s : s +:+ EmptyString = s.
Proof.
  induction s as [|c s IH]; [reflexivity|].
  rewrite app_cons. now rewrite IH.
Qed.

Lemma length_app_str s t :
  String.length (s +:+ t) = String.length s + String.length t.
Proof.
  induction s as [|c s IH]; [reflexivity|].
  rewrite app_cons. simpl. now rewrite IH.
Qed.

Lemma strip_prefix_Some p s t : Str.strip_prefix p s = Some t -> s = p +:+ t.
Proof.
  revert s. induction p as [|a p IH]; intros s; simpl.
  - now intros [= ->].
  - destruct s as [|b s]; [discriminate|].
    destruct (Ascii.eqb_spec a b) as [->|]; [|discriminate].
    intros H. rewrite app_cons. f_equal. now apply IH.
Qed.

Lemma strip_prefix_app p t : Str.strip_prefix p (p +:+ t) = Some t.
Proof.
  induction p as [|a p IH]; [reflexivity|].
  rewrite app_cons. simpl. now rewrite Ascii.eqb_refl.
Qed.

Lemma split_on_Some needle s t u :
  Str.split_on needle s = Some (t, u) -> s = t +:+ needle +:+ u.
Proof.
  revert t. induction s as [|c s IH]; intros t; simpl.
  - destruct (Str.strip_prefix needle EmptyString) as [r|] eqn:E; [|discriminate].
    intros [= <- <-]. now apply strip_prefix_Some in E.
  - destruct (Str.strip_prefix needle (String c s)) as [r|] eqn:E.
    + intros [= <- <-]. now apply strip_prefix_Some in E.
    + destruct (Str.split_on needle s) as [[b r]|]; [|discriminate].
      intros [= <- <-]. rewrite app_cons. f_equal. now apply IH.
Qed.

(** A match of the pattern, cut out of the line. *)
Lemma re_search_Some line t body u :
  re_search line = Some (t, body, u) ->
  line = t +:+ open_tag +:+ body +:+ close_tag +:+ u.
Proof.
  unfold re_search.
  destruct (Str.split_on open_tag line) as [[b r]|] eqn:E1; [|discriminate].
  destruct (Str.split_on close_tag r) as [[g a]|] eqn:E2; [|discriminate].
  intros [= <- <- <-].
  apply split_on_Some in E1, E2. now rewrite E1, E2.
Qed.

Lemma re_search_length line t body u :
  re_search line = Some (t, body, u) ->
  String.length line = String.length t + String.length body + String.length u + 31.
Proof.
  intros H. apply re_search_Some in H. rewrite H.
  rewrite !length_app_str. unfold open_tag, close_tag. simpl. lia.
Qed.

(** The test [if "<TO_GENERALIZE>" in line] never excludes a match. *)
Lemma re_search_contains line m :
  re_search line = Some m -> Str.contains open_tag line = true.
Proof.
  unfold re_search, Str.contains.
  destruct (Str.split_on open_tag line); [reflexivity | discriminate].
Qed.

Lemma re_sub_upto_enough safe_text n m line :
  String.length line <= n -> String.length line <= m ->
  re_sub_upto n safe_text line = re_sub_upto m safe_text line.
Proof.
  revert m line. induction n as [|n IH]; intros m line Hn Hm.
  - destruct line; [|simpl in Hn; lia]. now destruct m.
  - destruct m as [|m].
    + destruct line; [reflexivity | simpl in Hm; lia].
    + simpl. destruct (re_search line) as [[[t body] u]|] eqn:E; [|reflexivity].
      apply re_search_length in E. do 2 f_equal. apply IH; lia.
Qed.

(** [re.sub] replaces the first match and goes on after it. *)
Lemma re_sub_eq safe_text line :
  re_sub safe_text line =
  match re_search line with
  | None => line
  | Some (t, _, u) => t +:+ safe_text +:+ re_sub safe_text u
  end.
Proof.
  unfold re_sub. destruct (String.length line) as [|n] eqn:Hlen.
  - destruct (re_search line) as [[[t body] u]|] eqn:E; [|reflexivity].
    apply re_search_length in E. lia.
  - simpl. destruct (re_search line) as [[[t body] u]|] eqn:E; [|reflexivity].
    apply re_search_length in E. do 2 f_equal.
    apply re_sub_upto_enough; lia.
Qed.

(** What [re.sub] does to a line, in terms of its pieces: the text outside
    the delimiter pairs stays, every pair becomes [safe_text]. *)
Lemma re_sub_pieces safe_text line :
  exists pieces,
    line = render_tagged pieces
    /\ re_sub safe_text line = render_with safe_text pieces
    /\ match re_search line with
       | None => pieces = [Plain line]
       | Some (t, body, _) => exists rest, pieces = Plain t :: Span body :: rest
       end.
Proof.
  remember (String.length line) as n eqn:Hn.
  revert line Hn. induction n as [n IH] using lt_wf_ind. intros line Hn.
  rewrite re_sub_eq.
  destruct (re_search line) as [[[t body] u]|] eqn:E.
  - pose proof (re_search_length _ _ _ _ E) as Hlen.
    destruct (IH (String.length u) ltac:(lia) u eq_refl) as (rest & Hu & Hsub & _).
    exists (Plain t :: Span body :: rest). simpl.
    rewrite <- Hu, <- Hsub.
    split; [now apply re_search_Some|]. split; [reflexivity|]. eauto.
  - exists [Plain line]. simpl. now rewrite app_nil_r_str.
Qed.

End StringFacts.

(** ** The span extractor and the reassembler *)

Section ReassemblerFacts.

Variable py_str : json -> string.

Lemma scan_cons (i : nat) (line : string) (rest : list string) :
  scan i (line :: rest) =
  match re_search line with
  | Some (_, group1, _) => [(i, group1)]
  | None => []
  end ++ scan (S i) rest.
Proof.
  simpl. destruct (re_search line) as [m|] eqn:E.
  - now rewrite (re_search_contains _ _ E).
  - now destruct (Str.contains open_tag line).
Qed.

Lemma scan_bounds (i : nat) (lines : list string) (j : nat) (t : string) :
  (j, t) ∈ scan i lines -> i <= j < i + length lines.
Proof.
  revert i. induction lines as [|line rest IH]; intros i.
  - simpl. intros H. inversion H.
  - rewrite scan_cons. intros H. apply elem_of_app in H as [H|H].
    + destruct (re_search line) as [[[? g] ?]|]; [|inversion H].
      apply list_elem_of_singleton in H. injection H as -> _. simpl. lia.
    + apply IH in H. simpl. lia.
Qed.

(** A line is scanned once: no line number occurs twice. *)
Lemma scan_indices_NoDup (i : nat) (lines : list string) :
  NoDup (scan i lines).*1.
Proof.
  revert i. induction lines as [|line rest IH]; intros i.
  - constructor.
  - rewrite scan_cons. destruct (re_search line) as [[[? g] ?]|]; [|apply IH].
    simpl. constructor; [|apply IH].
    intros H. apply list_elem_of_fmap in H as ([j t] & Hj & H).
    simpl in Hj. subst j. apply scan_bounds in H. lia.
Qed.

Lemma length_rebuilt (cleaned : list json) (k : nat) (lines : list string) :
  length (rebuilt py_str cleaned k lines) = length lines.
Proof.
  revert k. induction lines as [|line rest IH]; intros k; [reflexivity|].
  simpl. destruct (re_search line); simpl; now rewrite IH.
Qed.

Lemma rebuilt_lookup_plain cleaned k lines (j : nat) (line : string) :
  lines !! j = Some line -> re_search line = None ->
  rebuilt py_str cleaned k lines !! j = Some line.
Proof.
  revert k j. induction lines as [|l rest IH]; intros k j; [discriminate|].
  destruct j as [|j]; simpl.
  - intros [= ->] E. now rewrite E.
  - intros Hj E. destruct (re_search l); simpl; now apply IH.
Qed.

Lemma rebuilt_lookup_flagged cleaned k i lines (j : nat) line t body u :
  lines !! j = Some line -> re_search line = Some (t, body, u) ->
  exists p,
    scan i lines !! p = Some (i + j, body)
    /\ rebuilt py_str cleaned k lines !! j =
       Some (match cleaned !! (k + p) with
             | Some safe_text => re_sub (ensure_str py_str safe_text) line
             | None => line
             end).
Proof.
  revert k i j. induction lines as [|l rest IH]; intros k i j; [discriminate|].
  rewrite scan_cons. destruct j as [|j]; simpl.
  - intros [= ->] E. rewrite E. exists 0. simpl.
    rewrite !Nat.add_0_r. auto.
  - intros Hj E. destruct (re_search l) as [[[? g] ?]|]; simpl.
    + destruct (IH (S k) (S i) j Hj E) as (p & Hp & Hr).
      exists (S p). simpl. rewrite Hp, Hr.
      replace (S k + p) with (k + S p) by lia.
      replace (S i + j) with (i + S j) by lia. auto.
    + destruct (IH k (S i) j Hj E) as (p & Hp & Hr).
      exists p. rewrite Hp, Hr.
      replace (S i + j) with (i + S j) by lia. auto.
Qed.

(** The loop over the flagged indices, with its updates in place, builds
    the document that [rebuilt] reads off; it never indexes out of range
    when there is a text for every flagged line. *)
Lemma reconstruct_rebuilt (lines done : list string) (k : nat)
    (cleaned : list json) :
  k + length (scan (length done) lines) <= length cleaned ->
  reconstruct py_str k (scan (length done) lines).*1 cleaned (done ++ lines)
  = Some (done ++ rebuilt py_str cleaned k lines).
Proof.
  revert done k. induction lines as [|line rest IH]; intros done k Hlen.
  - reflexivity.
  - rewrite scan_cons in *.
    assert (Hstep : forall x : string,
               done ++ x :: rest = (done ++ [x]) ++ rest)
      by (intros x; now rewrite <- app_assoc).
    assert (HS : forall x : string, S (length done) = length (done ++ [x]))
      by (intros x; rewrite length_app; simpl; lia).
    destruct (re_search line) as [[[t body] u]|] eqn:E; simpl in *.
    + rewrite E. rewrite list_lookup_middle by reflexivity.
      destruct (cleaned !! k) as [safe_text|] eqn:Hk.
      2:{ apply lookup_ge_None in Hk. lia. }
      rewrite insert_app_r_alt by lia.
      replace (length done - length done) with 0 by lia. simpl.
      rewrite Hstep, (HS (re_sub (ensure_str py_str safe_text) line)).
      rewrite IH.
      * now rewrite <- app_assoc.
      * rewrite <- HS. lia.
    + rewrite E. rewrite Hstep, (HS line). rewrite IH.
      * now rewrite <- app_assoc.
      * rewrite <- HS. lia.
Qed.

Lemma reassemble_rebuilt (lines : list string) (cleaned : list json) :
  length (dirty_indices lines) <= length cleaned ->
  reassemble py_str lines (dirty_indices lines) cleaned
  = Some (rebuilt py_str cleaned 0 lines).
Proof.
  intros H. unfold reassemble, dirty_indices in *.
  apply (reconstruct_rebuilt lines [] 0 cleaned).
  rewrite length_fmap in H. simpl. lia.
Qed.

End ReassemblerFacts.

(** ** The driver *)

Section DriverFacts.

Variable json_loads : string -> json + string.
Variable py_str : json -> string.

Lemma length_dirty (lines : list string) :
  length (dirty_texts lines) = length (dirty_indices lines).
Proof. unfold dirty_texts, dirty_indices. now rewrite !length_fmap. Qed.

Lemma length_padded (acc : list json) (lines : list string) :
  length (dirty_indices lines) <= length (pad_with_originals acc lines).
Proof.
  unfold pad_with_originals.
  rewrite length_app, length_fmap, length_drop, length_dirty. lia.
Qed.

(** The three ways a run on an existing input can go: a batch is still
    being retried; or the run ends, having reported a difference of the
    counts if there is one, with the output written from the padded texts
    and the checkpoint removed.  It never ends in an exception. *)
Lemma process_dataset_cases service fuel w lines :
  input_file w = Some lines ->
  match process_dataset json_loads py_str service fuel w with
  | Running =>
      batch_loop json_loads service fuel 0
        (make_batches BATCH_SIZE (dirty_texts lines)) (loop_start w) = None
  | Raised _ => False
  | Finished acc ran report w' =>
      exists st,
        batch_loop json_loads service fuel 0
          (make_batches BATCH_SIZE (dirty_texts lines)) (loop_start w) = Some st
        /\ acc = cleaned st
        /\ ran = processed st
        /\ report = loss_line (length acc) (length (dirty_indices lines))
        /\ w' = World (Some lines) None
                  (Some (rebuilt py_str (pad_with_originals acc lines) 0 lines))
  end.
Proof.
  intros Hin. unfold process_dataset, loop_start. rewrite Hin.
  destruct (batch_loop _ _ _ _ _ _) as [st|]; [|reflexivity].
  pose proof (reassemble_rebuilt py_str lines
                (pad_with_originals (cleaned st) lines)
                (length_padded _ _)) as Hre.
  unfold reassemble, pad_with_originals in Hre. rewrite Hre.
  exists st. repeat split; reflexivity.
Qed.

End DriverFacts.

(** C2 as stated fails: reassembling with the extracted texts removes the
    delimiters, so a document with a flagged line does not come back. *)
Lemma reassemble_extract_not_identity :
  ~ (forall (py_str : json -> string) (D : list string),
       reassemble py_str D (dirty_indices D) (JStr <$> dirty_texts D) = Some D).
Proof.
  intros H. specialize (H sample_str hello_doc). vm_compute in H. discriminate.
Qed.

(** C2 (as amended): for every document D, reassembling D with the span
    indices and the unmodified extracted texts yields a document with the
    lines of D in which every line without a delimiter pair is unchanged and
    every flagged line [t <TO_GENERALIZE> body </TO_GENERALIZE> u] has
    become [t body u'], the delimiters removed ([u'] is [u] with any
    further pair replaced by [body]); the result is D itself when no line
    of D is flagged. *)
Theorem reassemble_extract (py_str : json -> string) (D : list string) :
  exists out,
    reassemble py_str D (dirty_indices D) (JStr <$> dirty_texts D) = Some out
    /\ length out = length D
    /\ (forall i line,
          D !! i = Some line -> re_search line = None -> out !! i = Some line)
    /\ (forall i line t body u,
          D !! i = Some line -> re_search line = Some (t, body, u) ->
          line = t +:+ open_tag +:+ body +:+ close_tag +:+ u
          /\ out !! i = Some (t +:+ body +:+ re_sub body u))
    /\ ((forall line, line ∈ D -> re_search line = None) -> out = D).
Proof.
  set (cleaned := JStr <$> dirty_texts D).
  exists (rebuilt py_str cleaned 0 D).
  assert (Hplain : forall i line,
             D !! i = Some line -> re_search line = None ->
             rebuilt py_str cleaned 0 D !! i = Some line)
    by (intros; now apply rebuilt_lookup_plain).
  split; [|split; [|split; [|split]]].
  - apply reassemble_rebuilt. subst cleaned.
    now rewrite length_fmap, length_dirty.
  - apply length_rebuilt.
  - exact Hplain.
  - intros i line t body u Hi E. split; [now apply re_search_Some|].
    destruct (rebuilt_lookup_flagged py_str cleaned 0 0 D i line t body u Hi E)
      as (p & Hp & ->).
    assert (Hc : cleaned !! p = Some (JStr body)).
    { subst cleaned. unfold dirty_texts.
      now rewrite !list_lookup_fmap, Hp. }
    simpl. rewrite Hc. simpl. now rewrite re_sub_eq, E.
  - intros Hnone. apply list_eq. intros i.
    destruct (D !! i) as [line|] eqn:Hi.
    + apply Hplain; [exact Hi|]. apply Hnone. eapply list_elem_of_lookup_2, Hi.
    + apply lookup_ge_None. rewrite length_rebuilt. now apply lookup_ge_None.
Qed.

(** The delimiters of a line with one pair are gone for good: the line
    that comes back is 31 characters shorter. *)
Lemma single_pair_line_changed (t body u : string) :
  re_search u = None ->
  String.length (t +:+ body +:+ re_sub body u) + 31
  = String.length (t +:+ open_tag +:+ body +:+ close_tag +:+ u).
Proof.
  intros E. rewrite re_sub_eq, E. rewrite !length_app_str.
  unfold open_tag, close_tag. simpl. lia.
Qed.

(** C9 as stated fails, twice.  The number of lines is not kept: the
    answer [["hi\nthere"]] puts a line feed into the first line, and the
    written file reads back as three lines, not two.  And more than the
    span can change on a flagged line: on a line with two pairs the second
    pair is replaced as well, so what follows the span is not kept. *)
Lemma output_not_line_for_line :
  ~ (forall (json_loads : string -> json + string) (py_str : json -> string)
       (service : nat -> nat -> reply) (fuel : nat) (w : world)
       (lines : list string) (acc : list json) (ran : list nat)
       (report : option loss_report) (w' : world),
        input_file w = Some lines ->
        process_dataset json_loads py_str service fuel w
          = Finished acc ran report w' ->
        exists out,
          output_file w' = Some out
          /\ length (readlines (writelines out))
             = length (readlines (writelines lines)))
  /\ ~ (forall (json_loads : string -> json + string) (py_str : json -> string)
          (service : nat -> nat -> reply) (fuel : nat) (w : world)
          (lines : list string) (acc : list json) (ran : list nat)
          (report : option loss_report) (w' : world),
           input_file w = Some lines ->
           process_dataset json_loads py_str service fuel w
             = Finished acc ran report w' ->
           exists out,
             output_file w' = Some out
             /\ forall i line t body u,
                  lines !! i = Some line ->
                  re_search line = Some (t, body, u) ->
                  exists safe_text, out !! i = Some (t +:+ safe_text +:+ u)).
Proof.
  split; intros H.
  - destruct (H two_lines_loads sample_str
                (fun _ => always (Text two_lines_text)) 5
                (fresh hello_file) hello_file
                [JStr ("hi" +:+ line_feed +:+ "there")] [0] None
                (World (Some hello_file) None
                   (Some ["A: hi" +:+ line_feed +:+ "there" +:+ line_feed;
                          "B: normal line" +:+ line_feed]))
                eq_refl ltac:(vm_compute; reflexivity))
      as (out & Hout & Hlen).
    injection Hout as <-. vm_compute in Hlen. discriminate.
  - destruct (H sample_loads sample_str
                (fun _ => always (Raises "500 Internal error")) 5
                (fresh [two_pairs_line]) [two_pairs_line]
                [JStr "a"] [0] None
                (World (Some [two_pairs_line]) None (Some ["a and a!"]))
                eq_refl ltac:(vm_compute; reflexivity))
      as (out & Hout & Hline).
    injection Hout as <-.
    destruct (Hline 0 two_pairs_line EmptyString "a"
                " and <TO_GENERALIZE>b</TO_GENERALIZE>!" eq_refl eq_refl)
      as (safe_text & Hs).
    simpl in Hs. injection Hs as Hs.
    apply (f_equal String.length) in Hs.
    rewrite app_nil_l, length_app_str in Hs. simpl in Hs. lia.
Qed.

(** C9 (as amended): the output is written from a list with one string for
    every line of the input document, in the same order.  A line without a
    flagged span is written as it was.  On a flagged line
    [t <TO_GENERALIZE> body </TO_GENERALIZE> u] the text [t] before the
    first delimiter pair is kept, and the pair, delimiters included, is
    replaced by the rewritten text of the line's span (the accumulated
    text at the span's position, converted to a string; the original text
    where the accumulated sequence was short); what follows, [u], is kept
    as it was when it holds no further pair, and has every further pair
    replaced by that same text otherwise. *)
Theorem output_preserves_document
    (json_loads : string -> json + string) (py_str : json -> string)
    (service : nat -> nat -> reply) (fuel : nat) (w : world)
    (lines : list string) (acc : list json) (ran : list nat)
    (report : option loss_report) (w' : world) :
  input_file w = Some lines ->
  process_dataset json_loads py_str service fuel w = Finished acc ran report w' ->
  exists out,
    output_file w' = Some out
    /\ length out = length lines
    /\ (forall i line,
          lines !! i = Some line -> re_search line = None ->
          out !! i = Some line)
    /\ (forall i line t body u,
          lines !! i = Some line -> re_search line = Some (t, body, u) ->
          exists k safe_text,
            dirty_indices lines !! k = Some i
            /\ (acc !! k = Some safe_text
                \/ (length acc <= k /\ safe_text = JStr body))
            /\ line = t +:+ open_tag +:+ body +:+ close_tag +:+ u
            /\ out !! i =
               Some (t +:+ ensure_str py_str safe_text
                       +:+ re_sub (ensure_str py_str safe_text) u)
            /\ (re_search u = None ->
                out !! i = Some (t +:+ ensure_str py_str safe_text +:+ u))).
Proof.
  intros Hin Hrun.
  pose proof (process_dataset_cases json_loads py_str service fuel w lines Hin) as H.
  rewrite Hrun in H. destruct H as (st & _ & _ & _ & _ & ->).
  set (cleaned := pad_with_originals acc lines).
  exists (rebuilt py_str cleaned 0 lines). simpl.
  split; [reflexivity|]. split; [apply length_rebuilt|]. split.
  - intros i line Hi E. now apply rebuilt_lookup_plain.
  - intros i line t body u Hi E.
    destruct (rebuilt_lookup_flagged py_str cleaned 0 0 lines i line t body u Hi E)
      as (k & Hk & ->). simpl in *.
    assert (Hidx : dirty_indices lines !! k = Some i).
    { unfold dirty_indices. now rewrite list_lookup_fmap, Hk. }
    assert (Htxt : dirty_texts lines !! k = Some body).
    { unfold dirty_texts. now rewrite list_lookup_fmap, Hk. }
    assert (Hc : exists safe_text,
               cleaned !! k = Some safe_text
               /\ (acc !! k = Some safe_text
                   \/ (length acc <= k /\ safe_text = JStr body))).
    { subst cleaned. unfold pad_with_originals.
      destruct (Nat.lt_ge_cases k (length acc)) as [Hlt|Hge].
      - destruct (lookup_lt_is_Some_2 acc k Hlt) as [v Hv].
        exists v. rewrite lookup_app_l by exact Hlt. auto.
      - exists (JStr body). rewrite lookup_app_r by exact Hge.
        rewrite list_lookup_fmap, lookup_drop.
        replace (length acc + (k - length acc)) with k by lia.
        rewrite Htxt. auto. }
    destruct Hc as (safe_text & Hc & Hfrom). rewrite Hc.
    exists k, safe_text.
    split; [exact Hidx|]. split; [exact Hfrom|].
    split; [now apply re_search_Some|].
    split; [now rewrite re_sub_eq, E|]. intros Eu.
    now rewrite re_sub_eq, E, (re_sub_eq _ u), Eu.
Qed.

Lemma output_preserves_document_witness :
  exists out,
    output_file (World (Some hello_doc) None (Some ["A: hi"; "B: normal line"]))
      = Some out
    /\ length out = length hello_doc.
Proof.
  destruct (output_preserves_document sample_loads sample_str
              (fun _ => always (Text hi_fenced)) 5 (fresh hello_doc) hello_doc
              [JStr "hi"] [0] None
              (World (Some hello_doc) None (Some ["A: hi"; "B: normal line"]))
              eq_refl ltac:(vm_compute; reflexivity))
    as (out & Hout & Hlen & _).
  exists out. split; [exact Hout | exact Hlen].
Defined.

(** The specification's end-to-end example: "hello" rewritten to "hi". *)
Example hello_becomes_hi :
  process_dataset sample_loads sample_str (fun _ => always (Text hi_fenced)) 5
    (fresh hello_doc)
  = Finished [JStr "hi"] [0] None
      (World (Some hello_doc) None (Some ["A: hi"; "B: normal line"])).
Proof. vm_compute. reflexivity. Qed.

(** C10: on a line with two or more delimiter pairs the extraction yields
    one span, the first, lazy match, and the reassembly replaces every pair
    of the line by the rewritten text of that span: the first pair, the
    second pair, and the pairs of what follows.  The bodies of the second
    and later pairs are dropped. *)
Theorem later_pairs_take_first_text
    (py_str : json -> string) (lines : list string) (cleaned : list json)
    (i : nat) (line t b1 rest mid b2 post : string) :
  lines !! i = Some line ->
  re_search line = Some (t, b1, rest) ->
  re_search rest = Some (mid, b2, post) ->
  length (dirty_indices lines) <= length cleaned ->
  line = t +:+ open_tag +:+ b1 +:+ close_tag
           +:+ mid +:+ open_tag +:+ b2 +:+ close_tag +:+ post
  /\ exists k safe_text out,
       dirty_indices lines !! k = Some i
       /\ dirty_texts lines !! k = Some b1
       /\ (forall k', dirty_indices lines !! k' = Some i -> k' = k)
       /\ cleaned !! k = Some safe_text
       /\ reassemble py_str lines (dirty_indices lines) cleaned = Some out
       /\ out !! i =
          Some (t +:+ ensure_str py_str safe_text
                  +:+ mid +:+ ensure_str py_str safe_text
                  +:+ re_sub (ensure_str py_str safe_text) post)
       /\ exists pieces,
            post = render_tagged pieces
            /\ re_sub (ensure_str py_str safe_text) post
               = render_with (ensure_str py_str safe_text) pieces.
Proof.
  intros Hi E1 E2 Hlen. split.
  { apply re_search_Some in E1, E2. now rewrite E1, E2. }
  destruct (rebuilt_lookup_flagged py_str cleaned 0 0 lines i line t b1 rest Hi E1)
    as (k & Hk & Hout). simpl in *.
  assert (Hidx : dirty_indices lines !! k = Some i).
  { unfold dirty_indices. now rewrite list_lookup_fmap, Hk. }
  destruct (lookup_lt_is_Some_2 cleaned k) as [safe_text Hc].
  { apply lookup_lt_Some in Hidx. lia. }
  exists k, safe_text, (rebuilt py_str cleaned 0 lines).
  split; [exact Hidx|]. split.
  { unfold dirty_texts. now rewrite list_lookup_fmap, Hk. }
  split.
  { intros k' Hk'. eapply NoDup_lookup; [apply scan_indices_NoDup | exact Hk' | exact Hidx]. }
  split; [exact Hc|]. split; [now apply reassemble_rebuilt|]. split.
  - rewrite Hout, Hc. f_equal.
    rewrite re_sub_eq, E1. rewrite (re_sub_eq _ rest), E2. reflexivity.
  - destruct (re_sub_pieces (ensure_str py_str safe_text) post)
      as (pieces & Hpost & Hsub & _).
    eauto.
Qed.

Lemma later_pairs_take_first_text_witness :
  exists k safe_text out,
    dirty_indices [two_pairs_line] !! k = Some 0
    /\ dirty_texts [two_pairs_line] !! k = Some "a"
    /\ (forall k', dirty_indices [two_pairs_line] !! k' = Some 0 -> k' = k)
    /\ [JStr "x"] !! k = Some safe_text
    /\ reassemble sample_str [two_pairs_line] (dirty_indices [two_pairs_line])
         [JStr "x"] = Some out
    /\ out !! 0 =
       Some (EmptyString +:+ ensure_str sample_str safe_text
               +:+ " and " +:+ ensure_str sample_str safe_text
               +:+ re_sub (ensure_str sample_str safe_text) "!")
    /\ exists pieces,
         "!" = render_tagged pieces
         /\ re_sub (ensure_str sample_str safe_text) "!"
            = render_with (ensure_str sample_str safe_text) pieces.
Proof.
  apply (later_pairs_take_first_text sample_str [two_pairs_line] [JStr "x"] 0
           two_pairs_line EmptyString "a"
           " and <TO_GENERALIZE>b</TO_GENERALIZE>!" " and " "b" "!");
    [reflexivity | reflexivity | reflexivity | vm_compute; lia].
Defined.

Example two_pairs_both_replaced :
  dirty_texts [two_pairs_line] = ["a"]
  /\ reassemble sample_str [two_pairs_line] (dirty_indices [two_pairs_line])
       [JStr "x"] = Some ["x and x!"].
Proof. split; reflexivity. Qed.

(** C3 as stated fails: with a checkpoint that holds one text for a
    document of two spans, the counts differ by 50%, and the run still
    ends with its output written. *)
Lemma mismatch_does_not_stop_the_run :
  ~ (forall (json_loads : string -> json + string) (py_str : json -> string)
       (service : nat -> nat -> reply) (fuel : nat) (w : world)
       (lines : list string) (acc : list json) (ran : list nat)
       (report : option loss_report) (w' : world),
        input_file w = Some lines ->
        process_dataset json_loads py_str service fuel w
          = Finished acc ran report w' ->
        length acc <> length (dirty_indices lines) ->
        output_file w' = None
        \/ exists r, report = Some r /\ more_than_5 r = false).
Proof.
  intros H.
  destruct (H sample_loads sample_str (fun _ => always (Text hi_fenced)) 5
              (resuming grown_doc stale_checkpoint) grown_doc
              [JStr "uno"] [] (Some (LossReport 1 2 true))
              (World (Some grown_doc) None (Some ["uno"; "two"]))
              eq_refl ltac:(vm_compute; reflexivity) ltac:(vm_compute; lia))
    as [Hout | (r & Hr & Hfive)].
  - discriminate.
  - injection Hr as <-. discriminate.
Qed.

(** C3 (as amended): a run on an existing input does not fail on a
    difference of the counts.  Unless a batch is still being retried, it
    ends; when the length of the accumulated sequence differs from the
    number of extracted spans, the two counts are reported (with the
    warning for more than 5% loss or without it), a short sequence is
    padded with the original span texts, and in every case the output
    document is written from the padded sequence and the checkpoint is
    removed. *)
Theorem mismatch_reported_output_written
    (json_loads : string -> json + string) (py_str : json -> string)
    (service : nat -> nat -> reply) (fuel : nat) (w : world)
    (lines : list string) :
  input_file w = Some lines ->
  process_dataset json_loads py_str service fuel w = Running
  \/ exists acc ran report,
       process_dataset json_loads py_str service fuel w
         = Finished acc ran report
             (World (Some lines) None
                (Some (rebuilt py_str (pad_with_originals acc lines) 0 lines)))
       /\ report = loss_line (length acc) (length (dirty_indices lines))
       /\ (length acc <> length (dirty_indices lines) ->
           exists warned,
             report = Some (LossReport (length acc)
                              (length (dirty_indices lines)) warned))
       /\ (length acc = length (dirty_indices lines) -> report = None)
       /\ length (dirty_indices lines)
            <= length (pad_with_originals acc lines).
Proof.
  intros Hin.
  pose proof (process_dataset_cases json_loads py_str service fuel w lines Hin) as H.
  destruct (process_dataset json_loads py_str service fuel w)
    as [acc ran report w'| |]; [|contradiction|now left].
  right. destruct H as (st & _ & _ & _ & Hrep & ->).
  exists acc, ran, report. split; [reflexivity|]. split; [exact Hrep|].
  split; [|split].
  - intros Hne. rewrite Hrep. unfold loss_line.
    destruct (decide _); [contradiction | eauto].
  - intros He. rewrite Hrep. unfold loss_line.
    destruct (decide _); [reflexivity | contradiction].
  - apply length_padded.
Qed.

Lemma mismatch_reported_output_written_witness :
  process_dataset sample_loads sample_str (fun _ => always (Text hi_fenced)) 5
    (resuming grown_doc stale_checkpoint) = Running
  \/ exists acc ran report,
       process_dataset sample_loads sample_str
         (fun _ => always (Text hi_fenced)) 5
         (resuming grown_doc stale_checkpoint)
         = Finished acc ran report
             (World (Some grown_doc) None
                (Some (rebuilt sample_str (pad_with_originals acc grown_doc) 0
                         grown_doc)))
       /\ report = loss_line (length acc) (length (dirty_indices grown_doc))
       /\ (length acc <> length (dirty_indices grown_doc) ->
           exists warned,
             report = Some (LossReport (length acc)
                              (length (dirty_indices grown_doc)) warned))
       /\ (length acc = length (dirty_indices grown_doc) -> report = None)
       /\ length (dirty_indices grown_doc)
            <= length (pad_with_originals acc grown_doc).
Proof.
  apply (mismatch_reported_output_written sample_loads sample_str
           (fun _ => always (Text hi_fenced)) 5
           (resuming grown_doc stale_checkpoint) grown_doc).
  reflexivity.
Defined.

Example stale_checkpoint_run :
  process_dataset sample_loads sample_str (fun _ => always (Text hi_fenced)) 5
    (resuming grown_doc stale_checkpoint)
  = Finished [JStr "uno"] [] (Some (LossReport 1 2 true))
      (World (Some grown_doc) None (Some ["uno"; "two"])).
Proof. vm_compute. reflexivity. Qed.

(** At a loss of exactly 5% the double-precision percentage is above 5, and
    the warning is printed. *)
Example five_percent_warns :
  loss_line 19 20 = Some (LossReport 19 20 true).
Proof. vm_compute. reflexivity. Qed.

(** ** The checkpoint store: resuming *)

Section ResumeFacts.

Variable json_loads : string -> json + string.

Lemma batch_loop_skip service fuel batch_idx batch rest st :
  batch_idx ∈ completed st ->
  batch_loop json_loads service fuel batch_idx (batch :: rest) st
  = batch_loop json_loads service fuel (S batch_idx) rest st.
Proof. intros H. simpl. now destruct (decide _). Qed.

Lemma batch_loop_run service fuel batch_idx batch rest st :
  batch_idx ∉ completed st ->
  batch_loop json_loads service fuel batch_idx (batch :: rest) st
  = match process_batch_with_retry json_loads (service batch_idx) batch fuel with
    | None => None
    | Some (batch_results, _) =>
        batch_loop json_loads service fuel (S batch_idx) rest
          (Progress (completed st ∪ {[batch_idx]})
             (cleaned st ++ batch_results)
             (save_checkpoint (elements (completed st ∪ {[batch_idx]}))
                (cleaned st ++ batch_results) (files st))
             (processed st ++ [batch_idx]))
    end.
Proof. intros H. simpl. now destruct (decide _). Qed.

End ResumeFacts.

(** C7: when a run on a document of three batches is stopped after batches
    0 and 1, the checkpoint it leaves records the batches {0, 1}; a run
    resumed from that checkpoint, with the service behaving the same on
    each batch, skips the two and hands batch 2 alone to the retry
    controller, and it ends with the accumulated sequence, item for item,
    of the run that was not interrupted (and with the same report and
    output). *)
Theorem resume_after_two_batches
    (json_loads : string -> json + string) (py_str : json -> string)
    (service : nat -> nat -> reply) (fuel : nat) (lines : list string)
    (acc : list json) (ran : list nat) (report : option loss_report)
    (w' : world) :
  length (make_batches BATCH_SIZE (dirty_texts lines)) = 3 ->
  process_dataset json_loads py_str service fuel (fresh lines)
    = Finished acc ran report w' ->
  ran = [0; 1; 2]
  /\ exists c,
       interrupted_run json_loads service fuel 2 (fresh lines)
         = Some (resuming lines c)
       /\ list_to_set (completed_batches c) = ({[0; 1]} : gset nat)
       /\ process_dataset json_loads py_str service fuel (resuming lines c)
            = Finished acc [2] report w'.
Proof.
  intros H3 Hrun.
  unfold interrupted_run, process_dataset, loop_start in *. simpl in *.
  destruct (make_batches BATCH_SIZE (dirty_texts lines))
    as [|b0 [|b1 [|b2 [|b3 more]]]]; try discriminate. clear H3.
  simpl take.
  rewrite batch_loop_run in Hrun |- * by (simpl; set_solver).
  destruct (process_batch_with_retry json_loads (service 0) b0 fuel)
    as [[r0 n0]|]; [|discriminate].
  rewrite batch_loop_run in Hrun |- * by (simpl; set_solver).
  destruct (process_batch_with_retry json_loads (service 1) b1 fuel)
    as [[r1 n1]|]; [|discriminate].
  rewrite batch_loop_run in Hrun by (simpl; set_solver).
  destruct (process_batch_with_retry json_loads (service 2) b2 fuel)
    as [[r2 n2]|] eqn:E2; [|discriminate].
  simpl in Hrun.
  destruct (reconstruct py_str 0 (dirty_indices lines) _ lines) as [lines'|] eqn:Hre;
    [|discriminate].
  injection Hrun as <- <- <- <-.
  split; [reflexivity|].
  eexists. split; [reflexivity|].
  cbn [completed cleaned files processed completed_batches cleaned_texts
       load_checkpoint checkpoint_file input_file resuming].
  rewrite list_to_set_elements_L.
  split; [set_solver|].
  rewrite !batch_loop_skip by (simpl; set_solver).
  rewrite batch_loop_run by (simpl; set_solver).
  rewrite E2. simpl. rewrite Hre. reflexivity.
Qed.

Lemma resume_after_two_batches_witness :
  [0; 1; 2] = [0; 1; 2]
  /\ exists c,
       interrupted_run sample_loads
         (fun _ => always (Raises "500 Internal error")) 5 2 (fresh long_doc)
         = Some (resuming long_doc c)
       /\ list_to_set (completed_batches c) = ({[0; 1]} : gset nat)
       /\ process_dataset sample_loads sample_str
            (fun _ => always (Raises "500 Internal error")) 5
            (resuming long_doc c)
          = Finished (JStr <$> replicate 101 "x") [2] None
              (World (Some long_doc) None (Some (replicate 101 "x"))).
Proof.
  apply (resume_after_two_batches sample_loads sample_str
           (fun _ => always (Raises "500 Internal error")) 5 long_doc
           (JStr <$> replicate 101 "x") [0; 1; 2] None
           (World (Some long_doc) None (Some (replicate 101 "x"))));
    vm_compute; reflexivity.
Defined.

(** * Further properties *)

(** ** Reversal, whitespace and search *)

Section MoreStringFacts.

Implicit Types (s t u p needle : string) (c : ascii).

Lemma rev_onto_app s t : Str.rev_onto s t = Str.rev s +:+ t.
Proof.
  unfold Str.rev. revert t. induction s as [|c s IH]; intros t; [reflexivity|].
  simpl. rewrite IH, (IH (String c EmptyString)).
  now rewrite app_assoc_str.
Qed.

Lemma rev_cons c s : Str.rev (String c s) = Str.rev s +:+ String c EmptyString.
Proof. unfold Str.rev at 1. simpl. apply rev_onto_app. Qed.

Lemma rev_app s t : Str.rev (s +:+ t) = Str.rev t +:+ Str.rev s.
Proof.
  induction s as [|c s IH].
  - now rewrite app_nil_l, app_nil_r_str.
  - now rewrite app_cons, !rev_cons, IH, app_assoc_str.
Qed.

Lemma rev_involutive s : Str.rev (Str.rev s) = s.
Proof.
  induction s as [|c s IH]; [reflexivity|].
  now rewrite rev_cons, rev_app, IH.
Qed.

Lemma blank_cons c s : blank (String c s) <-> Str.is_space c = true /\ blank s.
Proof.
  unfold blank. simpl. destruct (Str.is_space c); [tauto|].
  split; [discriminate | intros [? _]; discriminate].
Qed.

Lemma blank_app s t : blank (s +:+ t) <-> blank s /\ blank t.
Proof.
  induction s as [|c s IH].
  - rewrite app_nil_l. unfold blank at 2. simpl. tauto.
  - rewrite app_cons, !blank_cons, IH. tauto.
Qed.

Lemma blank_rev s : blank s -> blank (Str.rev s).
Proof.
  induction s as [|c s IH]; [trivial|].
  rewrite blank_cons, rev_cons, blank_app, blank_cons. intros [Hc Hs].
  split; [now apply IH|]. now split.
Qed.

Lemma lstrip_blank_app s t : blank s -> Str.lstrip (s +:+ t) = Str.lstrip t.
Proof.
  induction s as [|c s IH]; [reflexivity|].
  rewrite blank_cons, app_cons. intros [Hc Hs]. simpl. rewrite Hc. now apply IH.
Qed.

(** A string that starts with a character that is no whitespace. *)
Lemma lstrip_fixed s :
  s <> EmptyString -> Str.lstrip s = s ->
  exists c s', s = String c s' /\ Str.is_space c = false.
Proof.
  destruct s as [|c s']; [congruence|]. intros _ H. exists c, s'.
  split; [reflexivity|]. simpl in H.
  destruct (Str.is_space c) eqn:E; [|reflexivity].
  exfalso. clear E. revert c H. induction s' as [|d s' IH]; intros c H.
  - discriminate.
  - simpl in H. destruct (Str.is_space d).
    + assert (Hlen : String.length (Str.lstrip s') <= String.length s').
      { clear. induction s' as [|e s' IH]; simpl; [lia|].
        destruct (Str.is_space e); simpl; lia. }
      apply (f_equal String.length) in H. simpl in H. lia.
    + apply (f_equal String.length) in H. simpl in H. lia.
Qed.

Lemma lstrip_app_fixed s t :
  s <> EmptyString -> Str.lstrip s = s -> Str.lstrip (s +:+ t) = s +:+ t.
Proof.
  intros Hne H. destruct (lstrip_fixed s Hne H) as (c & s' & -> & Hc).
  rewrite app_cons. simpl. now rewrite Hc.
Qed.

Lemma lstrip_idem s : Str.lstrip (Str.lstrip s) = Str.lstrip s.
Proof.
  induction s as [|c s IH]; [reflexivity|].
  simpl. destruct (Str.is_space c) eqn:E; [exact IH|]. simpl. now rewrite E.
Qed.

(** Stripping the left end of [x c] leaves an end of [x], and [c]. *)
Lemma lstrip_snoc s c :
  Str.is_space c = false ->
  exists s', Str.lstrip (s +:+ String c EmptyString) = s' +:+ String c EmptyString.
Proof.
  intros Hc. induction s as [|d s IH].
  - exists EmptyString. rewrite app_nil_l. simpl. now rewrite Hc.
  - rewrite app_cons. simpl. destruct (Str.is_space d); [exact IH|].
    exists (String d s). now rewrite app_cons.
Qed.

Lemma strip_no_outer_space s : no_outer_space (Str.strip s).
Proof.
  unfold no_outer_space, Str.strip. rewrite rev_involutive.
  split; [|apply lstrip_idem].
  pose proof (lstrip_idem s) as Hl. revert Hl.
  generalize (Str.lstrip s). intros a Ha.
  destruct a as [|c a]; [reflexivity|].
  assert (Hc : Str.is_space c = false).
  { destruct (lstrip_fixed (String c a) ltac:(discriminate) Ha)
      as (c' & a' & [= <- <-] & Hc). exact Hc. }
  rewrite rev_cons. destruct (lstrip_snoc (Str.rev a) c Hc) as (y & ->).
  rewrite rev_app. rewrite rev_cons, app_nil_l, app_cons, app_nil_l.
  simpl. now rewrite Hc.
Qed.

Lemma strip_fixed s : no_outer_space s -> Str.strip s = s.
Proof.
  intros [Hl Hr]. unfold Str.strip. now rewrite Hl, Hr, rev_involutive.
Qed.

Lemma strip_prefix_app_l p s t x :
  Str.strip_prefix p s = Some x ->
  Str.strip_prefix p (s +:+ t) = Some (x +:+ t).
Proof.
  intros H. apply strip_prefix_Some in H. subst s.
  rewrite app_assoc_str. apply strip_prefix_app.
Qed.

(** The leftmost occurrence: the needle does not occur in what precedes
    it. *)
Lemma split_on_leftmost needle s t u :
  needle <> EmptyString ->
  Str.split_on needle s = Some (t, u) -> Str.contains needle t = false.
Proof.
  intros Hne. unfold Str.contains.
  revert t. induction s as [|c s IH]; intros t; simpl.
  - destruct (Str.strip_prefix needle EmptyString) eqn:E; [|discriminate].
    intros [= <- <-]. destruct needle; [congruence | reflexivity].
  - destruct (Str.strip_prefix needle (String c s)) as [r|] eqn:E.
    + intros [= <- <-]. destruct needle; [congruence | reflexivity].
    + destruct (Str.split_on needle s) as [[b r]|] eqn:Es; [|discriminate].
      intros [= <- <-]. simpl.
      destruct (Str.strip_prefix needle (String c b)) as [x|] eqn:Eb.
      * apply split_on_Some in Es. subst s.
        apply (strip_prefix_app_l _ _ (needle +:+ r)) in Eb.
        rewrite app_cons in Eb. congruence.
      * specialize (IH b eq_refl). destruct (Str.split_on needle b); [discriminate|].
        reflexivity.
Qed.

(** An occurrence anywhere is found. *)
Lemma split_on_app needle s t :
  exists b r, Str.split_on needle (s +:+ needle +:+ t) = Some (b, r).
Proof.
  induction s as [|c s IH].
  - rewrite app_nil_l. destruct needle as [|a n].
    + simpl. destruct t; simpl; eauto.
    + assert (E : Str.strip_prefix (String a n) (String a n +:+ t) = Some t)
        by apply strip_prefix_app.
      rewrite app_cons in *. simpl Str.split_on.
      simpl in E. rewrite E. eauto.
  - rewrite app_cons. simpl.
    destruct (Str.strip_prefix needle (String c (s +:+ needle +:+ t))); [eauto|].
    destruct IH as (b & r & ->). eauto.
Qed.

Lemma contains_app needle s t : Str.contains needle (s +:+ needle +:+ t) = true.
Proof.
  unfold Str.contains. destruct (split_on_app needle s t) as (b & r & ->).
  reflexivity.
Qed.

Lemma lower_app s t : Str.lower (s +:+ t) = Str.lower s +:+ Str.lower t.
Proof.
  induction s as [|c s IH]; [reflexivity|].
  rewrite app_cons. simpl. now rewrite IH.
Qed.

End MoreStringFacts.

(** ** [clean_json_text] *)

Section CleanFacts.

Implicit Types (s t p q text body : string).

Lemma drop_chars_app p s : Str.drop_chars (String.length p) (p +:+ s) = s.
Proof.
  induction p as [|c p IH]; [now destruct s|]. rewrite app_cons. exact IH.
Qed.

Lemma startswith_app p s : Str.startswith (p +:+ s) p = true.
Proof. unfold Str.startswith. now rewrite strip_prefix_app. Qed.

Lemma startswith_shorter s p q :
  Str.startswith s p = false -> Str.startswith s (p +:+ q) = false.
Proof.
  unfold Str.startswith. intros H.
  destruct (Str.strip_prefix (p +:+ q) s) as [r|] eqn:E; [|reflexivity].
  apply strip_prefix_Some in E. subst s.
  now rewrite app_assoc_str, strip_prefix_app in H.
Qed.

(** A text that begins with whitespace begins with no fence. *)
Lemma startswith_space c s p a :
  Str.is_space c = true -> Str.is_space a = false ->
  Str.startswith (String c s) (String a p) = false.
Proof.
  intros Hc Ha. unfold Str.startswith. simpl.
  destruct (Ascii.eqb_spec a c) as [->|]; [congruence | reflexivity].
Qed.

Lemma blank_nonempty s :
  blank s -> s <> EmptyString ->
  exists c s', s = String c s' /\ Str.is_space c = true.
Proof.
  destruct s as [|c s']; [congruence|].
  intros H _. apply blank_cons in H as [Hc _]. eauto.
Qed.

Lemma strip_blank_around lead s trail :
  blank lead -> blank trail -> no_outer_space s -> s <> EmptyString ->
  Str.strip (lead +:+ s +:+ trail) = s.
Proof.
  intros Hlead Htrail [Hl Hr] Hne. unfold Str.strip.
  rewrite lstrip_blank_app by exact Hlead.
  rewrite lstrip_app_fixed by assumption.
  rewrite rev_app, lstrip_blank_app by now apply blank_rev.
  now rewrite Hr, rev_involutive.
Qed.

(** The text between an opening and a closing fence. *)
Lemma fenced_no_outer_space opening s :
  opening = fence_json \/ opening = fence ->
  no_outer_space (opening +:+ s +:+ fence)
  /\ opening +:+ s +:+ fence <> EmptyString.
Proof.
  intros Hop. split; [split|].
  - destruct Hop as [-> | ->]; reflexivity.
  - rewrite <- app_assoc_str, rev_app.
    change (Str.rev fence) with fence. reflexivity.
  - destruct Hop as [-> | ->]; discriminate.
Qed.

End CleanFacts.

(** X1: a text without surrounding whitespace that neither starts nor ends
    with a fence of three backquotes is returned as it is. *)
Theorem clean_json_text_plain (text : string) :
  no_outer_space text ->
  Str.startswith text fence = false ->
  Str.endswith text fence = false ->
  clean_json_text text = text.
Proof.
  intros Hs Hstart Hend. unfold clean_json_text.
  rewrite (strip_fixed text Hs).
  change fence_json with (fence +:+ "json").
  rewrite (startswith_shorter text fence "json" Hstart), Hstart, Hend.
  exact (strip_fixed text Hs).
Qed.

Lemma clean_json_text_plain_witness : clean_json_text "[1, 2]" = "[1, 2]".
Proof.
  apply (clean_json_text_plain "[1, 2]"); [split; reflexivity | reflexivity ..].
Defined.

(** X2: a block that opens with [```json] or [```] followed by whitespace,
    closes with [```], and may have whitespace around it, is reduced to
    the text inside the fences, without the whitespace around that text. *)
Theorem clean_json_text_fenced (lead opening pre body post trail : string) :
  opening = fence_json \/ opening = fence ->
  blank lead -> blank trail ->
  blank pre -> pre <> EmptyString -> blank post ->
  no_outer_space body -> body <> EmptyString ->
  clean_json_text
    (lead +:+ (opening +:+ (pre +:+ body +:+ post) +:+ fence) +:+ trail)
  = body.
Proof.
  intros Hop Hlead Htrail Hpre Hpre0 Hpost Hbody Hbody0.
  destruct (fenced_no_outer_space opening (pre +:+ body +:+ post) Hop) as [Hx Hx0].
  destruct (blank_nonempty pre Hpre Hpre0) as (c & pre' & -> & Hc).
  unfold clean_json_text.
  rewrite (strip_blank_around lead _ trail Hlead Htrail Hx Hx0).
  set (inner := String c pre' +:+ body +:+ post).
  assert (Hdrop :
    (if Str.startswith
          (if Str.startswith (opening +:+ inner +:+ fence) fence_json
           then Str.drop_chars 7 (opening +:+ inner +:+ fence)
           else opening +:+ inner +:+ fence) fence
     then Str.drop_chars 3
            (if Str.startswith (opening +:+ inner +:+ fence) fence_json
             then Str.drop_chars 7 (opening +:+ inner +:+ fence)
             else opening +:+ inner +:+ fence)
     else if Str.startswith (opening +:+ inner +:+ fence) fence_json
          then Str.drop_chars 7 (opening +:+ inner +:+ fence)
          else opening +:+ inner +:+ fence)
    = inner +:+ fence).
  { assert (Hin : exists rest, inner +:+ fence = String c rest).
    { subst inner. rewrite !app_cons. eauto. }
    destruct Hin as (rest & Hin).
    destruct Hop as [-> | ->].
    - rewrite startswith_app.
      change 7 with (String.length fence_json). rewrite drop_chars_app.
      rewrite Hin.
      assert (Hsp : Str.startswith (String c rest) fence = false)
        by (apply (startswith_space c rest "``" "`"); [exact Hc | reflexivity]).
      now rewrite Hsp.
    - assert (Hj : Str.startswith (fence +:+ inner +:+ fence) fence_json = false).
      { rewrite Hin. unfold Str.startswith.
        destruct (Str.strip_prefix fence_json (fence +:+ String c rest))
          as [r|] eqn:E; [|reflexivity].
        apply strip_prefix_Some in E. unfold fence, fence_json in E.
        rewrite !app_cons, !app_nil_l in E. injection E as -> _.
        discriminate. }
      rewrite Hj, startswith_app.
      change 3 with (String.length fence). now rewrite drop_chars_app. }
  rewrite Hdrop.
  assert (Hend : Str.endswith (inner +:+ fence) fence = true).
  { unfold Str.endswith. rewrite rev_app. apply startswith_app. }
  rewrite Hend. unfold Str.drop_last. rewrite rev_app.
  change 3 with (String.length (Str.rev fence)).
  rewrite drop_chars_app, rev_involutive.
  subst inner. apply strip_blank_around; assumption.
Qed.

Lemma clean_json_text_fenced_witness :
  clean_json_text
    (" " +:+ (fence_json +:+ ("
" +:+ "[1, 2]" +:+ "
") +:+ fence) +:+ "  ")
  = "[1, 2]".
Proof.
  apply (clean_json_text_fenced " " fence_json "
" "[1, 2]" "
" "  ");
    try reflexivity; try discriminate; [now left | split; reflexivity].
Defined.

(** X3: what [clean_json_text] returns never starts or ends with
    whitespace. *)
Theorem clean_json_text_stripped (text : string) :
  no_outer_space (clean_json_text text)
  /\ Str.strip (clean_json_text text) = clean_json_text text.
Proof.
  assert (H : no_outer_space (clean_json_text text))
    by (unfold clean_json_text; apply strip_no_outer_space).
  split; [exact H | now apply strip_fixed].
Qed.

(** ** The classification of errors *)

(** X4: an error message with "429" anywhere in it, or with the word
    "quota" in any mix of upper and lower case, is taken for a rate
    limit. *)
Theorem rate_limit_markers (before marker after : string) :
  marker = "429" \/ Str.lower marker = "quota" ->
  is_rate_limit (before +:+ marker +:+ after) = true.
Proof.
  intros [-> | Hq]; unfold is_rate_limit.
  - now rewrite contains_app.
  - rewrite !lower_app, Hq, contains_app. apply orb_true_r.
Qed.

Lemma rate_limit_markers_witness :
  is_rate_limit ("Resource exhausted: " +:+ "Quota" +:+ " exceeded for model")
  = true.
Proof.
  apply (rate_limit_markers "Resource exhausted: " "Quota" " exceeded for model").
  right. reflexivity.
Defined.

Lemma too_few_counted_100 : too_few_counted_up_to 100 = true.
Proof. vm_compute. reflexivity. Qed.

Lemma too_few_counted_spec (n m K : nat) :
  too_few_counted_up_to n = true -> K <= n -> m <= K ->
  is_rate_limit (too_few m K) = false.
Proof.
  unfold too_few_counted_up_to. intros H HK Hm.
  rewrite forallb_forall in H.
  assert (HinK : In K (seq 0 (S n))) by (apply in_seq; lia).
  specialize (H K HinK). rewrite forallb_forall in H.
  assert (Hinm : In m (seq 0 (S K))) by (apply in_seq; lia).
  specialize (H m Hinm). now apply negb_true_iff in H.
Qed.

Section BudgetFacts.

Variable json_loads : string -> json + string.

(** Two failures that are no rate limits use up the budget. *)
Lemma retry_loop_two_failures service batch fuel :
  (forall n, n < max_retries -> exists error_str,
      attempt json_loads batch (service n) = inr error_str
      /\ is_rate_limit error_str = false) ->
  retry_loop json_loads service batch (max_retries + fuel) 0 0
  = Some (JStr <$> batch, max_retries).
Proof.
  intros Hfail. unfold max_retries in *.
  destruct (Hfail 0 ltac:(lia)) as (e0 & E0 & R0).
  destruct (Hfail 1 ltac:(lia)) as (e1 & E1 & R1).
  change (2 + fuel) with (S (S fuel)).
  rewrite (retry_loop_failed _ _ _ _ _ _ e0) by (try exact E0; unfold max_retries; lia).
  rewrite R0.
  rewrite (retry_loop_failed _ _ _ _ _ _ e1) by (try exact E1; unfold max_retries; lia).
  rewrite R1. now rewrite retry_loop_exhausted.
Qed.

(** The loop does not look at the requests already made: it runs the same
    on the rest of the service's outcomes. *)
Lemma retry_loop_shift service batch fuel retries calls N :
  retry_loop json_loads service batch fuel retries (N + calls)
  = (fun '(r, n) => (r, N + n))
      <$> retry_loop json_loads (fun k => service (N + k)) batch fuel retries calls.
Proof.
  revert retries calls. induction fuel as [|fuel IH]; intros retries calls; simpl.
  - now destruct (retries <? max_retries).
  - destruct (retries <? max_retries); [|reflexivity].
    destruct (attempt json_loads batch (service (N + calls))); simpl.
    + do 2 f_equal. lia.
    + replace (S (N + calls)) with (N + S calls) by lia.
      destruct (is_rate_limit s); apply IH.
Qed.

(** Rate limits at the start are passed over without a change of the
    budget. *)
Lemma retry_loop_after_limits service batch fuel N :
  (forall k, k < N -> rate_limited json_loads batch (service k) = true) ->
  retry_loop json_loads service batch (N + fuel) 0 0
  = retry_loop json_loads service batch fuel 0 N.
Proof.
  intros Hrl.
  assert (G : forall j, j <= N ->
             retry_loop json_loads service batch (j + fuel) 0 (N - j)
             = retry_loop json_loads service batch fuel 0 N).
  { induction j as [|j IH]; intros Hj.
    - now rewrite Nat.sub_0_r.
    - specialize (Hrl (N - S j) ltac:(lia)). unfold rate_limited in Hrl.
      destruct (attempt json_loads batch (service (N - S j))) as [|msg] eqn:E;
        [discriminate|].
      change (S j + fuel) with (S (j + fuel)).
      rewrite (retry_loop_failed _ _ _ _ _ _ msg)
        by (try exact E; unfold max_retries; lia).
      rewrite Hrl. replace (S (N - S j)) with (N - j) by lia.
      apply IH. lia. }
  specialize (G N ltac:(lia)). now rewrite Nat.sub_diag in G.
Qed.

(** Where a returned result comes from. *)
Lemma retry_loop_origin service batch fuel retries calls r n :
  retry_loop json_loads service batch fuel retries calls = Some (r, n) ->
  (r = JStr <$> batch /\ max_retries <= retries + (n - calls))
  \/ exists text results,
       calls < n
       /\ service (n - 1) = Text text
       /\ json_loads (clean_json_text text) = inl (JList results)
       /\ ge_090 (length results) (length batch) = true
       /\ r = repair batch results.
Proof.
  revert retries calls. induction fuel as [|fuel IH]; intros retries calls; simpl.
  - destruct (Nat.ltb_spec retries max_retries); [discriminate|].
    intros [= <- <-]. left. split; [reflexivity | lia].
  - destruct (Nat.ltb_spec retries max_retries).
    2:{ intros [= <- <-]. left. split; [reflexivity | lia]. }
    destruct (attempt json_loads batch (service calls)) as [res|msg] eqn:E.
    + intros [= <- <-]. right. unfold attempt in E.
      destruct (service calls) as [text|] eqn:Es; [|discriminate].
      destruct (json_loads (clean_json_text text)) as [[| | | | |results|]|] eqn:El;
        try discriminate.
      destruct (ge_090 _ _) eqn:Eg; [|discriminate].
      injection E as <-. exists text, results.
      replace (S calls - 1) with calls by lia.
      repeat split; (lia || assumption).
    + intros Hloop.
      destruct (is_rate_limit msg);
        pose proof (retry_loop_calls _ _ _ _ _ _ _ _ Hloop) as Hn;
        apply IH in Hloop;
        (destruct Hloop as [[Hr Hb] | (text & results & Hlt & Hrest)];
         [left; split; [exact Hr | lia]
         | right; exists text, results; split; [lia | exact Hrest]]).
Qed.

(** The requests that are not taken for rate limits stay within the
    budget. *)
Lemma retry_loop_budget service batch fuel retries calls r n :
  retry_loop json_loads service batch fuel retries calls = Some (r, n) ->
  retries <= max_retries ->
  n - calls + retries
    <= rate_limits json_loads service batch calls (n - calls) + max_retries.
Proof.
  revert retries calls. induction fuel as [|fuel IH]; intros retries calls; simpl.
  - destruct (Nat.ltb_spec retries max_retries); [discriminate|].
    intros [= _ <-] Hr. lia.
  - destruct (Nat.ltb_spec retries max_retries).
    2:{ intros [= _ <-] Hr. lia. }
    destruct (attempt json_loads batch (service calls)) as [res|msg] eqn:E.
    + intros [= _ <-] Hr. replace (S calls - calls) with 1 by lia.
      simpl. lia.
    + intros Hloop Hr.
      assert (Hn : S calls <= n)
        by (destruct (is_rate_limit msg);
            apply retry_loop_calls in Hloop; lia).
      replace (n - calls) with (S (n - S calls)) by lia. simpl.
      unfold rate_limited. rewrite E.
      destruct (is_rate_limit msg); apply IH in Hloop; lia.
Qed.

End BudgetFacts.

(** How a returned result came about: either every request failed and the
    original texts come back, or the last request gave a list that was
    accepted and repaired. *)
Lemma retry_loop_outcome (json_loads : string -> json + string)
    (service : nat -> reply) (batch : list string)
    (fuel retries calls : nat) (r : list json) (n : nat) :
  retry_loop json_loads service batch fuel retries calls = Some (r, n) ->
  (r = JStr <$> batch
   /\ forall k, calls <= k < n ->
        exists error_str, attempt json_loads batch (service k) = inr error_str)
  \/ exists text results,
       calls < n
       /\ service (n - 1) = Text text
       /\ json_loads (clean_json_text text) = inl (JList results)
       /\ ge_090 (length results) (length batch) = true
       /\ r = repair batch results.
Proof.
  revert retries calls. induction fuel as [|fuel IH]; intros retries calls; simpl.
  - destruct (Nat.ltb_spec retries max_retries); [discriminate|].
    intros [= <- <-]. left. split; [reflexivity | intros k Hk; lia].
  - destruct (Nat.ltb_spec retries max_retries).
    2:{ intros [= <- <-]. left. split; [reflexivity | intros k Hk; lia]. }
    destruct (attempt json_loads batch (service calls)) as [res|msg] eqn:E.
    + intros [= <- <-]. right. unfold attempt in E.
      destruct (service calls) as [text|] eqn:Es; [|discriminate].
      destruct (json_loads (clean_json_text text)) as [[| | | | |results|]|] eqn:El;
        try discriminate.
      destruct (ge_090 _ _) eqn:Eg; [|discriminate].
      injection E as <-. exists text, results.
      replace (S calls - 1) with calls by lia.
      repeat split; (lia || assumption).
    + intros Hloop.
      destruct (is_rate_limit msg);
        pose proof (retry_loop_calls _ _ _ _ _ _ _ _ Hloop) as Hn;
        apply IH in Hloop;
        (destruct Hloop as [[Hr Hall] | (text & results & Hlt & Hrest)];
         [left; split; [exact Hr|];
          intros k Hk; destruct (Nat.eq_dec k calls) as [->|Hne];
          [exists msg; exact E | apply Hall; lia]
         | right; exists text, results; split; [lia | exact Hrest]]).
Qed.

(** C1 (as amended): whatever the service does, a result that
    [process_batch_with_retry] returns for a batch of K texts has exactly K
    items, on a successful (possibly repaired) rewrite and on the fallback
    alike.  Either every request has failed and the items are the original
    texts, in order (the fallback); or the last request gave a list that
    was accepted, having at least nine tenths of K items: then at a
    position that the list has, the item is the item of the list, a JSON
    value of any kind and not only a string, and at a position past the
    end of the list (padding), the item is the original text of that
    position. *)
Theorem process_batch_with_retry_length
    (json_loads : string -> json + string) (service : nat -> reply)
    (batch : list string) (fuel : nat) (r : list json) (n : nat) :
  process_batch_with_retry json_loads service batch fuel = Some (r, n) ->
  length r = length batch
  /\ ((r = JStr <$> batch
       /\ forall k, k < n ->
            exists error_str,
              attempt json_loads batch (service k) = inr error_str)
      \/ exists text results,
           0 < n
           /\ service (n - 1) = Text text
           /\ json_loads (clean_json_text text) = inl (JList results)
           /\ ge_090 (length results) (length batch) = true
           /\ forall i s,
                batch !! i = Some s ->
                (forall v, results !! i = Some v -> r !! i = Some v)
                /\ (results !! i = None -> r !! i = Some (JStr s))).
Proof.
  intros H. split; [eapply retry_loop_length, H|].
  apply retry_loop_outcome in H
    as [[-> Hall] | (text & results & Hn & Hs & Hl & Hg & ->)].
  - left. split; [reflexivity|]. intros k Hk. apply Hall. lia.
  - right. exists text, results. repeat (split; [assumption|]).
    intros i s Hi. pose proof (lookup_lt_Some _ _ _ Hi) as Hlt. split.
    + intros v Hv. rewrite repair_kept; [exact Hv | | exact Hlt].
      now apply lookup_lt_Some in Hv.
    + intros Hnone. apply lookup_ge_None in Hnone. unfold repair.
      destruct (Nat.ltb_spec (length batch) (length results)) as [Hlong|Hshort];
        [lia|].
      rewrite lookup_app_r by exact Hnone.
      rewrite list_lookup_fmap, lookup_drop.
      replace (length results + (i - length results)) with i by lia.
      now rewrite Hi.
Qed.

Lemma process_batch_with_retry_length_witness :
  process_batch_with_retry sample_loads (always (Text hi_fenced)) ["hello"] 2
    = Some ([JStr "hi"], 1)
  /\ length [JStr "hi"] = length ["hello"].
Proof.
  split; [reflexivity|].
  apply (process_batch_with_retry_length sample_loads (always (Text hi_fenced))
           ["hello"] 2 [JStr "hi"] 1).
  reflexivity.
Defined.

(** X5: for a batch of at most 100 texts (the pipeline's batches have at
    most 50), answers that parse but are no list, or are lists of fewer
    than ceil(0.9 K) items, are never taken for rate limits: two of them
    use up the budget, and the original texts come back after exactly two
    requests. *)
Theorem malformed_answers_fall_back
    (json_loads : string -> json + string) (service : nat -> reply)
    (batch : list string) (fuel : nat) :
  length batch <= 100 ->
  (forall n, n < max_retries -> exists text v,
      service n = Text text
      /\ json_loads (clean_json_text text) = inl v
      /\ forall results, v = JList results ->
           length results < ceil_090 (length batch)) ->
  process_batch_with_retry json_loads service batch (max_retries + fuel)
  = Some (JStr <$> batch, max_retries).
Proof.
  intros HK Hbad. apply retry_loop_two_failures. intros n Hn.
  destruct (Hbad n Hn) as (text & v & Hs & Hv & Hshort).
  unfold attempt. rewrite Hs, Hv.
  destruct v as [| | | | |results|]; try (eexists; split; reflexivity).
  specialize (Hshort results eq_refl).
  destruct (ge_090 (length results) (length batch)) eqn:Eg.
  { apply ge_090_ceil in Eg. lia. }
  eexists. split; [reflexivity|].
  apply (too_few_counted_spec 100); [apply too_few_counted_100 | exact HK |].
  assert (ceil_090 (length batch) <= length batch); [|lia].
  unfold ceil_090.
  pose proof (Nat.div_mod_eq (9 * length batch + 9) 10) as E.
  pose proof (Nat.mod_upper_bound (9 * length batch + 9) 10 ltac:(lia)) as B.
  revert E B.
  generalize ((9 * length batch + 9) / 10) ((9 * length batch + 9) mod 10).
  intros q r0 E B. lia.
Qed.

Lemma malformed_answers_fall_back_witness :
  process_batch_with_retry sample_loads (always (Text "[]")) ["a"; "b"] 2
  = Some ([JStr "a"; JStr "b"], 2).
Proof.
  apply (malformed_answers_fall_back sample_loads (always (Text "[]"))
           ["a"; "b"] 0).
  - simpl. lia.
  - intros n _. exists "[]", (JList []).
    split; [reflexivity|]. split; [reflexivity|].
    intros results [= <-]. vm_compute. lia.
Defined.

(** X6: rate limits do not use up the retry budget.  When the first N
    requests are taken for rate limits, the run goes on as if the service
    had started with its request number N: the same result, N requests
    later. *)
Theorem rate_limits_leave_budget
    (json_loads : string -> json + string) (service : nat -> reply)
    (batch : list string) (fuel N : nat) :
  (forall k, k < N -> rate_limited json_loads batch (service k) = true) ->
  process_batch_with_retry json_loads service batch (N + fuel)
  = (fun '(r, n) => (r, N + n))
      <$> process_batch_with_retry json_loads (fun k => service (N + k))
            batch fuel.
Proof.
  intros Hrl. unfold process_batch_with_retry.
  rewrite (retry_loop_after_limits _ _ _ _ _ Hrl).
  rewrite <- (retry_loop_shift json_loads service batch fuel 0 0 N).
  now rewrite Nat.add_0_r.
Qed.

Lemma rate_limits_leave_budget_witness :
  process_batch_with_retry sample_loads (limited_then 3 (Text hi_fenced))
    ["hello"] (3 + 1)
  = (fun '(r, n) => (r, 3 + n))
      <$> process_batch_with_retry sample_loads
            (fun k => limited_then 3 (Text hi_fenced) (3 + k)) ["hello"] 1.
Proof.
  apply (rate_limits_leave_budget sample_loads
           (limited_then 3 (Text hi_fenced)) ["hello"] 1 3).
  intros k Hk. destruct k as [|[|[|k]]]; [reflexivity .. | lia].
Defined.

(** X7: a result of [process_batch_with_retry] is one of two things: the
    batch itself, or the repair of the list that the last request
    delivered, a list that passed the 90% test.  Item by item it holds
    what the service sent for the position, or the original text. *)
Theorem result_is_repair_or_fallback
    (json_loads : string -> json + string) (service : nat -> reply)
    (batch : list string) (fuel : nat) (r : list json) (n : nat) :
  process_batch_with_retry json_loads service batch fuel = Some (r, n) ->
  r = JStr <$> batch
  \/ exists text results,
       0 < n
       /\ service (n - 1) = Text text
       /\ json_loads (clean_json_text text) = inl (JList results)
       /\ ceil_090 (length batch) <= length results
       /\ r = repair batch results
       /\ forall i, i < length batch ->
            r !! i = results !! i \/ r !! i = JStr <$> batch !! i.
Proof.
  intros H. apply retry_loop_origin in H
    as [[Hr _] | (text & results & Hn & Hs & Hl & Hg & Hr)]; [now left|].
  right. exists text, results. apply ge_090_ceil in Hg.
  repeat (split; [assumption|]). intros i Hi. subst r.
  destruct (Nat.lt_ge_cases i (length results)) as [Hlt|Hge].
  - left. now apply repair_kept.
  - right. apply repair_padded; [exact Hge|].
    destruct (Nat.le_gt_cases (length results) (length batch)); lia.
Qed.

Lemma result_is_repair_or_fallback_witness :
  [JStr "hi"] = JStr <$> ["hello"]
  \/ exists text results,
       0 < 1
       /\ always (Text hi_fenced) (1 - 1) = Text text
       /\ sample_loads (clean_json_text text) = inl (JList results)
       /\ ceil_090 (length ["hello"]) <= length results
       /\ [JStr "hi"] = repair ["hello"] results
       /\ forall i, i < length ["hello"] ->
            [JStr "hi"] !! i = results !! i
            \/ [JStr "hi"] !! i = JStr <$> ["hello"] !! i.
Proof.
  apply (result_is_repair_or_fallback sample_loads (always (Text hi_fenced))
           ["hello"] 2 [JStr "hi"] 1).
  reflexivity.
Defined.

(** X8: however long a run lasts, the requests that are not taken for rate
    limits number at most [max_retries]. *)
Theorem requests_within_budget
    (json_loads : string -> json + string) (service : nat -> reply)
    (batch : list string) (fuel : nat) (r : list json) (n : nat) :
  process_batch_with_retry json_loads service batch fuel = Some (r, n) ->
  n <= rate_limits json_loads service batch 0 n + max_retries.
Proof.
  intros H. apply retry_loop_budget in H; [|unfold max_retries; lia].
  rewrite Nat.sub_0_r in H. lia.
Qed.

Lemma requests_within_budget_witness :
  4 <= rate_limits sample_loads (limited_then 3 (Text hi_fenced)) ["hello"] 0 4
       + max_retries.
Proof.
  apply (requests_within_budget sample_loads (limited_then 3 (Text hi_fenced))
           ["hello"] 5 [JStr "hi"] 4).
  reflexivity.
Defined.

(** X9: an answer with exactly as many items as the batch is returned as it
    is, after one request. *)
Theorem exact_answer_returned_unchanged
    (json_loads : string -> json + string) (service : nat -> reply)
    (batch : list string) (fuel : nat) (text : string) (results : list json) :
  service 0 = Text text ->
  json_loads (clean_json_text text) = inl (JList results) ->
  length results = length batch ->
  process_batch_with_retry json_loads service batch (S fuel)
  = Some (results, 1).
Proof.
  intros Hs Hl Hlen. unfold process_batch_with_retry. simpl.
  unfold attempt. rewrite Hs, Hl.
  assert (Hg : ge_090 (length results) (length batch) = true).
  { unfold ge_090. apply Nat.leb_le. lia. }
  rewrite Hg. unfold repair.
  destruct (Nat.ltb_spec (length batch) (length results)); [lia|].
  rewrite drop_ge by lia. simpl. now rewrite app_nil_r.
Qed.

Lemma exact_answer_returned_unchanged_witness :
  process_batch_with_retry sample_loads (always (Text hi_fenced)) ["hello"] 1
  = Some ([JStr "hi"], 1).
Proof.
  apply (exact_answer_returned_unchanged sample_loads (always (Text hi_fenced))
           ["hello"] 0 hi_fenced [JStr "hi"]); reflexivity.
Defined.

(** ** The span extractor: which match is taken *)

Section SearchFacts.

Implicit Types (s t u p needle line body : string).

Lemma split_on_eq needle s :
  Str.split_on needle s =
  match Str.strip_prefix needle s with
  | Some rest => Some (EmptyString, rest)
  | None =>
      match s with
      | EmptyString => None
      | String c s' =>
          match Str.split_on needle s' with
          | Some (before, rest) => Some (String c before, rest)
          | None => None
          end
      end
  end.
Proof. now destruct s. Qed.

(** What follows a prefix that ends before [u] begins still ends in [u]. *)
Lemma strip_prefix_tail p s u r :
  Str.strip_prefix p (s +:+ u) = Some r ->
  String.length p <= String.length s ->
  exists y, r = y +:+ u.
Proof.
  revert s. induction p as [|a p IH]; intros s; simpl.
  - intros [= <-] _. eauto.
  - destruct s as [|b s]; [simpl; lia|].
    rewrite app_cons. destruct (Ascii.eqb a b); [|discriminate].
    simpl. intros H Hlen. apply (IH s H). lia.
Qed.

Lemma split_on_keeps_tail needle s u b r :
  Str.split_on needle (s +:+ needle +:+ u) = Some (b, r) ->
  String.length b <= String.length s /\ exists y, r = y +:+ u.
Proof.
  revert b. induction s as [|c s IH]; intros b; rewrite split_on_eq.
  - rewrite app_nil_l, strip_prefix_app. intros [= <- <-].
    split; [simpl; lia|]. exists EmptyString. reflexivity.
  - destruct (Str.strip_prefix needle (String c s +:+ needle +:+ u))
      as [r0|] eqn:E.
    + intros [= <- <-]. split; [simpl; lia|].
      rewrite <- app_assoc_str in E.
      apply strip_prefix_tail in E; [exact E|].
      rewrite length_app_str. lia.
    + rewrite app_cons.
      destruct (Str.split_on needle (s +:+ needle +:+ u)) as [[b' r']|] eqn:Es;
        [|discriminate].
      intros [= <- <-]. destruct (IH b' eq_refl) as [Hlen Hy].
      split; [simpl; lia | exact Hy].
Qed.

End SearchFacts.

(** X10: the match that the extractor takes is the first one, and its group
    is the shortest: there is no opening tag before the match, and no
    closing tag inside the extracted text. *)
Theorem match_is_first_and_lazy (line before body after : string) :
  re_search line = Some (before, body, after) ->
  Str.contains open_tag before = false
  /\ Str.contains close_tag body = false.
Proof.
  unfold re_search.
  destruct (Str.split_on open_tag line) as [[b r]|] eqn:E1; [|discriminate].
  destruct (Str.split_on close_tag r) as [[g a]|] eqn:E2; [|discriminate].
  intros [= <- <- <-]. split.
  - now apply (split_on_leftmost open_tag line b r).
  - now apply (split_on_leftmost close_tag r g a).
Qed.

Lemma match_is_first_and_lazy_witness :
  Str.contains open_tag "A: " = false
  /\ Str.contains close_tag "hello" = false.
Proof.
  apply (match_is_first_and_lazy "A: <TO_GENERALIZE>hello</TO_GENERALIZE>"
           "A: " "hello" EmptyString).
  reflexivity.
Defined.

(** X11: a line that has an opening tag followed, anywhere later, by a
    closing tag is flagged, whatever stands around and between the tags;
    the match begins no later than that opening tag. *)
Theorem pair_is_found (before body after : string) :
  exists t g u,
    re_search (before +:+ open_tag +:+ body +:+ close_tag +:+ after)
      = Some (t, g, u)
    /\ String.length t <= String.length before.
Proof.
  unfold re_search.
  destruct (split_on_app open_tag before (body +:+ close_tag +:+ after))
    as (b & r & E1).
  rewrite E1.
  apply split_on_keeps_tail in E1 as [Hlen (y & ->)].
  rewrite <- app_assoc_str.
  destruct (split_on_app close_tag (y +:+ body) after) as (g & a & ->).
  eauto.
Qed.

(** A line without an opening tag, or with no closing tag after the first
    opening tag, is not flagged. *)
Lemma no_tag_no_match (line : string) :
  Str.contains open_tag line = false -> re_search line = None.
Proof.
  unfold Str.contains, re_search.
  now destruct (Str.split_on open_tag line) as [[b r]|].
Qed.

Section ScanFacts.

Lemma scan_lookup (i : nat) (lines : list string) (k j : nat) (body : string) :
  scan i lines !! k = Some (j, body) ->
  i <= j /\ exists line t u,
    lines !! (j - i) = Some line /\ re_search line = Some (t, body, u).
Proof.
  revert i k. induction lines as [|line rest IH]; intros i k; [discriminate|].
  rewrite scan_cons.
  destruct (re_search line) as [[[t g] u]|] eqn:E.
  - destruct k as [|k]; simpl.
    + intros [= <- <-]. split; [lia|]. exists line, t, u.
      now rewrite Nat.sub_diag.
    + intros H. apply IH in H as [Hle (l & t' & u' & Hl & Hs)].
      split; [lia|]. exists l, t', u'. split; [|exact Hs].
      replace (j - i) with (S (j - S i)) by lia. exact Hl.
  - simpl. intros H. apply IH in H as [Hle (l & t' & u' & Hl & Hs)].
    split; [lia|]. exists l, t', u'. split; [|exact Hs].
    replace (j - i) with (S (j - S i)) by lia. exact Hl.
Qed.

Lemma scan_increasing (i : nat) (lines : list string) (k1 k2 j1 j2 : nat)
    (b1 b2 : string) :
  k1 < k2 ->
  scan i lines !! k1 = Some (j1, b1) -> scan i lines !! k2 = Some (j2, b2) ->
  j1 < j2.
Proof.
  revert i k1 k2. induction lines as [|line rest IH]; intros i k1 k2 Hk;
    [discriminate|].
  rewrite scan_cons.
  destruct (re_search line) as [[[t g] u]|]; simpl; [|now apply IH].
  destruct k2 as [|k2]; [lia|]. destruct k1 as [|k1]; simpl.
  - intros [= <- <-] H2. apply scan_lookup in H2. lia.
  - apply IH. lia.
Qed.

End ScanFacts.

(** X12: the extracted spans are those of the flagged lines, one for each,
    in the order of the lines: the k-th index is the number of a line
    with a match and the k-th text is the group of that match; every line
    with a match has its index in the list; and the indices increase
    strictly. *)
Theorem extraction_in_line_order (lines : list string) :
  length (dirty_texts lines) = length (dirty_indices lines)
  /\ (forall k i,
        dirty_indices lines !! k = Some i ->
        exists line t body u,
          lines !! i = Some line
          /\ re_search line = Some (t, body, u)
          /\ dirty_texts lines !! k = Some body)
  /\ (forall i line m,
        lines !! i = Some line -> re_search line = Some m ->
        i ∈ dirty_indices lines)
  /\ (forall k1 k2 i1 i2,
        k1 < k2 ->
        dirty_indices lines !! k1 = Some i1 ->
        dirty_indices lines !! k2 = Some i2 ->
        i1 < i2).
Proof.
  unfold dirty_indices, dirty_texts. split; [now rewrite !length_fmap|].
  split; [|split].
  - intros k i. rewrite !list_lookup_fmap.
    destruct (scan 0 lines !! k) as [[j body]|] eqn:E; [|discriminate].
    simpl. intros [= ->]. apply scan_lookup in E as [_ (l & t & u & Hl & Hs)].
    rewrite Nat.sub_0_r in Hl. exists l, t, body, u. auto.
  - intros i line [[t body] u] Hi E.
    destruct (rebuilt_lookup_flagged (fun _ => EmptyString) [] 0 0 lines i
                line t body u Hi E) as (p & Hp & _).
    apply list_elem_of_lookup. exists p. now rewrite list_lookup_fmap, Hp.
  - intros k1 k2 i1 i2 Hk. rewrite !list_lookup_fmap.
    destruct (scan 0 lines !! k1) as [[j1 b1]|] eqn:E1; [|discriminate].
    destruct (scan 0 lines !! k2) as [[j2 b2]|] eqn:E2; [|discriminate].
    simpl. intros [= <-] [= <-]. eapply scan_increasing; eauto.
Qed.

(** ** The batcher: sizes *)

(** X13: for a batch size of at least 1, no batch is empty and none has
    more than the batch size; the number of batches is the least that
    holds all the texts; an empty sequence gives no batch. *)
Theorem batches_nonempty_and_bounded {A : Type} (texts : list A) (size : nat) :
  1 <= size ->
  (forall batch, batch ∈ make_batches size texts ->
     1 <= length batch <= size)
  /\ length texts <= length (make_batches size texts) * size
  /\ length (make_batches size texts) * size < length texts + size
  /\ (texts = [] -> make_batches size texts = []).
Proof.
  intros Hs. destruct (batch_count texts size Hs) as [Hup Hlow].
  rewrite length_make_batches.
  assert (Hmax : (length texts + size - 1) / size * size < length texts + size).
  { pose proof (Nat.div_mod_eq (length texts + size - 1) size) as E.
    revert E. generalize ((length texts + size - 1) mod size)
                         ((length texts + size - 1) / size).
    intros r q E. nia. }
  split; [|split; [exact Hup | split; [exact Hmax|]]].
  - intros batch Hin. apply list_elem_of_lookup in Hin as [i Hi].
    apply make_batches_lookup in Hi as [Hi ->].
    rewrite length_take, length_drop.
    destruct (Nat.eq_dec (length texts) 0) as [E0|E0].
    { rewrite E0 in Hi. rewrite Nat.div_small in Hi by lia. lia. }
    destruct Hlow as [Hlow _]; [lia|].
    revert Hi Hlow. generalize ((length texts + size - 1) / size).
    intros n Hi Hlow. nia.
  - intros ->. apply nil_length_inv. rewrite length_make_batches. simpl.
    apply Nat.div_small. lia.
Qed.

Lemma batches_nonempty_and_bounded_witness :
  length [1; 2; 3; 4; 5; 6; 7] <= length (make_batches 3 [1; 2; 3; 4; 5; 6; 7]) * 3.
Proof.
  apply (batches_nonempty_and_bounded [1; 2; 3; 4; 5; 6; 7] 3). lia.
Defined.

(** ** The batch loop and the checkpoint *)

Lemma filter_ext_in {A} (P Q : A -> Prop) `{!forall x, Decision (P x)}
    `{!forall x, Decision (Q x)} (l : list A) :
  (forall x, x ∈ l -> (P x <-> Q x)) -> filter P l = filter Q l.
Proof.
  induction l as [|x l IH]; intros Hext; [reflexivity|].
  rewrite !filter_cons.
  rewrite IH by (intros y Hy; apply Hext; now right).
  pose proof (Hext x ltac:(left)) as Hx.
  destruct (decide (P x)), (decide (Q x)); tauto.
Qed.

Section LoopFacts.

Variable json_loads : string -> json + string.
Variable service : nat -> nat -> reply.
Variable fuel : nat.

Lemma batch_loop_app idx l1 l2 st :
  batch_loop json_loads service fuel idx (l1 ++ l2) st
  = batch_loop json_loads service fuel idx l1 st ≫= batch_loop json_loads service fuel (idx + length l1) l2.
Proof.
  revert idx st. induction l1 as [|batch l1 IH]; intros idx st; simpl.
  - now rewrite Nat.add_0_r.
  - replace (idx + S (length l1)) with (S idx + length l1) by lia.
    destruct (decide (idx ∈ completed st)) as [Hin|Hnin]; [apply IH|].
    destruct (process_batch_with_retry _ _ _ _) as [[r n]|]; [apply IH|reflexivity].
Qed.

Lemma batch_loop_skip_all idx l st :
  (forall j, idx <= j < idx + length l -> j ∈ completed st) ->
  batch_loop json_loads service fuel idx l st = Some st.
Proof.
  revert idx. induction l as [|batch l IH]; intros idx H; [reflexivity|].
  rewrite batch_loop_skip by (apply H; simpl; lia).
  apply IH. intros j Hj. apply H. simpl. lia.
Qed.

(** The batches handed to the retry controller are those not recorded as
    completed, in ascending order; the completed set gains the indices
    of the loop. *)
Lemma batch_loop_processed idx l st st' :
  batch_loop json_loads service fuel idx l st = Some st' ->
  processed st' =
    processed st ++ filter (fun j => j ∉ completed st) (seq idx (length l))
  /\ (forall j, j ∈ completed st' <->
                j ∈ completed st \/ idx <= j < idx + length l).
Proof.
  revert idx st. induction l as [|batch l IH]; intros idx st.
  - simpl. intros [= <-]. rewrite app_nil_r. split; [reflexivity|].
    intros j. split; [auto | intros [?|?]; [assumption | lia]].
  - destruct (decide (idx ∈ completed st)) as [Hin|Hnin].
    + rewrite batch_loop_skip by exact Hin. intros H.
      apply IH in H as [Hp Hc]. simpl. split.
      * rewrite filter_cons_False by (intros Hn; now apply Hn). exact Hp.
      * intros j. rewrite Hc. split; [intros [?|?]; [auto | right; lia]|].
        intros [?|?]; [auto|].
        destruct (Nat.eq_dec j idx) as [->|]; [auto | right; lia].
    + rewrite batch_loop_run by exact Hnin.
      destruct (process_batch_with_retry _ _ _ _) as [[r n]|]; [|discriminate].
      intros H. apply IH in H as [Hp Hc]. simpl in *. split.
      * rewrite filter_cons_True by exact Hnin.
        rewrite Hp, <- app_assoc. simpl. do 2 f_equal.
        apply filter_ext_in. intros j Hj. apply elem_of_seq in Hj.
        rewrite elem_of_union, elem_of_singleton.
        split; [intros Hn Hc'; apply Hn; now left|].
        intros Hn [?|?]; [now apply Hn | lia].
      * intros j. rewrite Hc, elem_of_union, elem_of_singleton.
        split; [intros [[?|?]|?]; [auto | right; lia | right; lia]|].
        intros [?|?]; [auto|].
        destruct (Nat.eq_dec j idx) as [->|]; [auto | right; lia].
Qed.

(** When no batch of the loop is recorded as completed, the accumulated
    sequence grows by one result for every text of every batch. *)
Lemma batch_loop_length idx l st st' :
  (forall j, idx <= j -> j ∉ completed st) ->
  batch_loop json_loads service fuel idx l st = Some st' ->
  length (cleaned st') = length (cleaned st) + length (concat l).
Proof.
  revert idx st. induction l as [|batch l IH]; intros idx st Hnew.
  - simpl. intros [= <-]. lia.
  - rewrite batch_loop_run by (apply Hnew; lia).
    destruct (process_batch_with_retry _ _ _ _) as [[r n]|] eqn:E; [|discriminate].
    intros H. apply IH in H.
    + simpl in *. rewrite H, !length_app.
      apply retry_loop_length in E. lia.
    + simpl. intros j Hj. rewrite elem_of_union, elem_of_singleton.
      intros [Hc|?]; [|lia]. apply (Hnew j); [lia | exact Hc].
Qed.

(** When every batch of the loop ends in the fallback, the accumulated
    sequence grows by the original texts, and the loop ends. *)
Lemma batch_loop_fallback idx l st :
  (forall j, idx <= j -> j ∉ completed st) ->
  (forall j batch, l !! j = Some batch ->
     process_batch_with_retry json_loads (service (idx + j)) batch fuel
     = Some (JStr <$> batch, max_retries)) ->
  exists st',
    batch_loop json_loads service fuel idx l st = Some st'
    /\ cleaned st' = cleaned st ++ (JStr <$> concat l).
Proof.
  revert idx st. induction l as [|batch l IH]; intros idx st Hnew Hfb.
  - exists st. simpl. now rewrite app_nil_r.
  - rewrite batch_loop_run by (apply Hnew; lia).
    pose proof (Hfb 0 batch eq_refl) as E. rewrite Nat.add_0_r in E. rewrite E.
    edestruct (IH (S idx)) as (st' & Hloop & Hcl); [| |exists st'; split; [exact Hloop|]].
    + simpl. intros j Hj. rewrite elem_of_union, elem_of_singleton.
      intros [Hc|?]; [|lia]. apply (Hnew j); [lia | exact Hc].
    + intros j b Hj. replace (S idx + j) with (idx + S j) by lia.
      now apply Hfb.
    + rewrite Hcl. simpl. now rewrite fmap_app, app_assoc.
Qed.

(** The loop goes the same way from two states with the same completed set
    and the same accumulated texts. *)
Lemma batch_loop_congr idx l st1 st2 :
  completed st1 = completed st2 -> cleaned st1 = cleaned st2 ->
  match batch_loop json_loads service fuel idx l st1,
        batch_loop json_loads service fuel idx l st2 with
  | Some a, Some b => completed a = completed b /\ cleaned a = cleaned b
  | None, None => True
  | _, _ => False
  end.
Proof.
  revert idx st1 st2. induction l as [|batch l IH]; intros idx st1 st2 Hc Hcl.
  - simpl. auto.
  - simpl. rewrite <- Hc, <- Hcl.
    destruct (decide (idx ∈ completed st1)) as [Hin|Hnin]; [now apply IH|].
    destruct (process_batch_with_retry _ _ _ _) as [[r n]|]; [|exact I].
    now apply IH.
Qed.

(** What is on disk is the state of the loop: a run that loads the files
    left by the loop starts from the completed set and the accumulated
    texts that the loop had reached. *)
Lemma batch_loop_checkpoint idx l st st' :
  batch_loop json_loads service fuel idx l st = Some st' ->
  completed (loop_start (files st)) = completed st ->
  cleaned (loop_start (files st)) = cleaned st ->
  completed (loop_start (files st')) = completed st'
  /\ cleaned (loop_start (files st')) = cleaned st'
  /\ input_file (files st') = input_file (files st)
  /\ output_file (files st') = output_file (files st).
Proof.
  revert idx st. induction l as [|batch l IH]; intros idx st.
  - simpl. intros [= <-]. auto.
  - simpl. destruct (decide (idx ∈ completed st)) as [Hin|Hnin]; [apply IH|].
    destruct (process_batch_with_retry _ _ _ _) as [[r n]|]; [|discriminate].
    intros H _ _. apply IH in H as (? & ? & Hi & Ho); simpl.
    + repeat split; assumption.
    + apply list_to_set_elements_L.
    + reflexivity.
Qed.

End LoopFacts.

Lemma filter_all {A} (P : A -> Prop) `{!forall x, Decision (P x)} (l : list A) :
  (forall x, x ∈ l -> P x) -> filter P l = l.
Proof.
  induction l as [|x l IH]; intros Hall; [reflexivity|].
  rewrite filter_cons_True by (apply Hall; left).
  f_equal. apply IH. intros y Hy. apply Hall. now right.
Qed.

Lemma concat_make_batches {A} (texts : list A) (size : nat) :
  1 <= size -> concat (make_batches size texts) = texts.
Proof.
  intros Hs. rewrite make_batches_chunks, concat_chunks.
  apply take_ge. now apply batch_count.
Qed.

Lemma loop_start_fresh (lines : list string) :
  loop_start (fresh lines) = Progress ∅ [] (fresh lines) [].
Proof. reflexivity. Qed.

(** A first run that ends: the accumulated texts, the report and the
    batches handed to the retry controller. *)
Lemma fresh_run_facts
    (json_loads : string -> json + string) (py_str : json -> string)
    (service : nat -> nat -> reply) (fuel : nat) (lines : list string)
    (acc : list json) (ran : list nat) (report : option loss_report)
    (w' : world) :
  process_dataset json_loads py_str service fuel (fresh lines)
    = Finished acc ran report w' ->
  length acc = length (dirty_indices lines)
  /\ report = None
  /\ ran = seq 0 (length (make_batches BATCH_SIZE (dirty_texts lines))).
Proof.
  intros Hrun.
  pose proof (process_dataset_cases json_loads py_str service fuel
                (fresh lines) lines eq_refl) as H.
  rewrite Hrun in H. destruct H as (st & Hloop & -> & -> & -> & _).
  rewrite loop_start_fresh in Hloop.
  assert (Hlen : length (cleaned st) = length (dirty_indices lines)).
  { apply batch_loop_length in Hloop; [|simpl; set_solver].
    simpl in Hloop. rewrite Hloop, concat_make_batches by (unfold BATCH_SIZE; lia).
    apply length_dirty. }
  split; [exact Hlen|]. split.
  - unfold loss_line. rewrite Hlen. now destruct (decide _).
  - apply batch_loop_processed in Hloop as [-> _]. simpl.
    apply filter_all. intros j _. set_solver.
Qed.

(** X14: a run that starts without a checkpoint and ends has handed every
    batch, in order, to the retry controller, holds exactly one text for
    every extracted span, and reports no loss. *)
Theorem fresh_run_accounts_for_every_span
    (json_loads : string -> json + string) (py_str : json -> string)
    (service : nat -> nat -> reply) (fuel : nat) (lines : list string)
    (acc : list json) (ran : list nat) (report : option loss_report)
    (w' : world) :
  process_dataset json_loads py_str service fuel (fresh lines)
    = Finished acc ran report w' ->
  length acc = length (dirty_indices lines)
  /\ report = None
  /\ ran = seq 0 (length (make_batches BATCH_SIZE (dirty_texts lines))).
Proof. apply fresh_run_facts. Qed.

Lemma fresh_run_accounts_for_every_span_witness :
  length [JStr "hi"] = length (dirty_indices hello_doc)
  /\ (None : option loss_report) = None
  /\ [0] = seq 0 (length (make_batches BATCH_SIZE (dirty_texts hello_doc))).
Proof.
  apply (fresh_run_accounts_for_every_span sample_loads sample_str
           (fun _ => always (Text hi_fenced)) 5 hello_doc [JStr "hi"] [0] None
           (World (Some hello_doc) None (Some ["A: hi"; "B: normal line"]))).
  vm_compute. reflexivity.
Defined.

(** X15: whatever checkpoint a run finds, the batches it hands to the retry
    controller are the batches that the checkpoint does not list as
    completed, each once and in ascending order. *)
Theorem run_processes_unrecorded_batches
    (json_loads : string -> json + string) (py_str : json -> string)
    (service : nat -> nat -> reply) (fuel : nat) (w : world)
    (lines : list string) (acc : list json) (ran : list nat)
    (report : option loss_report) (w' : world) :
  input_file w = Some lines ->
  process_dataset json_loads py_str service fuel w
    = Finished acc ran report w' ->
  ran = filter (fun j => j ∉ completed_batches (load_checkpoint w))
          (seq 0 (length (make_batches BATCH_SIZE (dirty_texts lines)))).
Proof.
  intros Hin Hrun.
  pose proof (process_dataset_cases json_loads py_str service fuel w lines Hin) as H.
  rewrite Hrun in H. destruct H as (st & Hloop & _ & -> & _).
  apply batch_loop_processed in Hloop as [-> _]. unfold loop_start. simpl.
  apply filter_ext_in. intros j _. now rewrite elem_of_list_to_set.
Qed.

Lemma run_processes_unrecorded_batches_witness :
  ([] : list nat)
  = filter (fun j => j ∉ completed_batches
                         (load_checkpoint (resuming grown_doc stale_checkpoint)))
      (seq 0 (length (make_batches BATCH_SIZE (dirty_texts grown_doc)))).
Proof.
  apply (run_processes_unrecorded_batches sample_loads sample_str
           (fun _ => always (Text hi_fenced)) 5
           (resuming grown_doc stale_checkpoint) grown_doc
           [JStr "uno"] [] (Some (LossReport 1 2 true))
           (World (Some grown_doc) None (Some ["uno"; "two"])));
    [reflexivity | vm_compute; reflexivity].
Defined.

(** X16: a run may be stopped after any number of rounds of its batch loop.
    The run resumed from the files it leaves, with the service behaving
    the same on each batch, hands the remaining batches alone to the retry
    controller and ends like the run that was not interrupted: the same
    accumulated texts, the same report, the same output. *)
Theorem resume_after_any_round
    (json_loads : string -> json + string) (py_str : json -> string)
    (service : nat -> nat -> reply) (fuel : nat) (lines : list string)
    (n : nat) (acc : list json) (ran : list nat)
    (report : option loss_report) (w' : world) :
  process_dataset json_loads py_str service fuel (fresh lines)
    = Finished acc ran report w' ->
  exists w1,
    interrupted_run json_loads service fuel n (fresh lines) = Some w1
    /\ process_dataset json_loads py_str service fuel w1
       = Finished acc (drop n ran) report w'.
Proof.
  intros Hrun.
  pose proof (process_dataset_cases json_loads py_str service fuel
                (fresh lines) lines eq_refl) as H.
  rewrite Hrun in H. destruct H as (stF & Hloop & Hacc & Hran & Hrep & Hw).
  set (bs := make_batches BATCH_SIZE (dirty_texts lines)) in *.
  assert (HranF : ran = seq 0 (length bs)).
  { rewrite Hran. apply batch_loop_processed in Hloop as [-> _].
    rewrite loop_start_fresh. simpl. apply filter_all. intros j _. set_solver. }
  rewrite <- (take_drop n bs), batch_loop_app in Hloop.
  destruct (batch_loop json_loads service fuel 0 (take n bs)
              (loop_start (fresh lines))) as [stn|] eqn:En; [|discriminate].
  simpl in Hloop.
  exists (files stn). split.
  { unfold interrupted_run. simpl. fold bs. now rewrite En. }
  destruct (batch_loop_checkpoint _ _ _ _ _ _ _ En eq_refl eq_refl)
    as (Hc & Hcl & Hi & _).
  simpl in Hi.
  destruct (batch_loop_processed _ _ _ _ _ _ _ En) as [_ Hmem].
  rewrite loop_start_fresh in Hmem. simpl in Hmem.
  assert (Hres : exists stR,
             batch_loop json_loads service fuel 0 bs (loop_start (files stn))
               = Some stR
             /\ cleaned stR = cleaned stF
             /\ processed stR = drop n ran).
  { replace (batch_loop json_loads service fuel 0 bs (loop_start (files stn)))
      with (batch_loop json_loads service fuel 0 (take n bs ++ drop n bs)
              (loop_start (files stn)))
      by now rewrite take_drop.
    rewrite batch_loop_app.
    rewrite batch_loop_skip_all.
    2:{ intros j Hj. rewrite Hc. apply Hmem. right. exact Hj. }
    simpl.
    pose proof (batch_loop_congr json_loads service fuel (length (take n bs))
                  (drop n bs) (loop_start (files stn)) stn Hc Hcl) as Hcongr.
    rewrite Hloop in Hcongr.
    destruct (batch_loop json_loads service fuel (length (take n bs))
                (drop n bs) (loop_start (files stn))) as [stR|] eqn:ER;
      [|contradiction].
    exists stR. split; [reflexivity|]. split; [apply Hcongr|].
    apply batch_loop_processed in ER as [-> _].
    change (processed (loop_start (files stn))) with (@nil nat).
    rewrite List.app_nil_l.
    rewrite HranF, drop_seq, length_drop, length_take, Nat.add_0_l.
    rewrite filter_all.
    - destruct (Nat.le_gt_cases n (length bs)).
      + now rewrite Nat.min_l by lia.
      + replace (length bs - n) with 0 by lia. reflexivity.
    - intros j Hj. apply elem_of_seq in Hj. rewrite Hc, Hmem.
      rewrite length_take in *. set_solver by lia. }
  destruct Hres as (stR & HR & HclR & HpR). subst bs.
  pose proof (process_dataset_cases json_loads py_str service fuel
                (files stn) lines Hi) as H1.
  destruct (process_dataset json_loads py_str service fuel (files stn))
    as [acc1 ran1 rep1 w1| |].
  - destruct H1 as (st1 & Hl1 & -> & -> & -> & ->).
    rewrite HR in Hl1. injection Hl1 as <-.
    rewrite HclR, HpR, <- Hacc. now rewrite Hrep, Hw.
  - contradiction.
  - rewrite HR in H1. discriminate.
Qed.

Lemma resume_after_any_round_witness :
  exists w1,
    interrupted_run sample_loads
      (fun _ => always (Raises "500 Internal error")) 5 1 (fresh long_doc)
      = Some w1
    /\ process_dataset sample_loads sample_str
         (fun _ => always (Raises "500 Internal error")) 5 w1
       = Finished (JStr <$> replicate 101 "x") (drop 1 [0; 1; 2]) None
           (World (Some long_doc) None (Some (replicate 101 "x"))).
Proof.
  apply (resume_after_any_round sample_loads sample_str
           (fun _ => always (Raises "500 Internal error")) 5 long_doc 1
           (JStr <$> replicate 101 "x") [0; 1; 2] None
           (World (Some long_doc) None (Some (replicate 101 "x")))).
  vm_compute. reflexivity.
Defined.

Lemma scan_nothing (i : nat) (lines : list string) :
  (forall line, line ∈ lines -> re_search line = None) -> scan i lines = [].
Proof.
  revert i. induction lines as [|line rest IH]; intros i Hnone; [reflexivity|].
  rewrite scan_cons, (Hnone line) by left. simpl.
  apply IH. intros l Hl. apply Hnone. now right.
Qed.

(** X17: on a document without a flagged line a first run makes no request
    to the service, whatever the service would do, and writes the
    document as it is. *)
Theorem nothing_flagged_nothing_changed
    (json_loads : string -> json + string) (py_str : json -> string)
    (service : nat -> nat -> reply) (fuel : nat) (lines : list string) :
  (forall line, line ∈ lines -> re_search line = None) ->
  process_dataset json_loads py_str service fuel (fresh lines)
  = Finished [] [] None (World (Some lines) None (Some lines)).
Proof.
  intros Hnone. unfold process_dataset, dirty_indices, dirty_texts.
  simpl. now rewrite (scan_nothing 0 lines Hnone).
Qed.

Lemma nothing_flagged_nothing_changed_witness :
  process_dataset sample_loads sample_str
    (fun _ => always (Raises "429 Resource has been exhausted")) 0
    (fresh ["B: normal line"; "C: </TO_GENERALIZE> only"])
  = Finished [] [] None
      (World (Some ["B: normal line"; "C: </TO_GENERALIZE> only"]) None
         (Some ["B: normal line"; "C: </TO_GENERALIZE> only"])).
Proof.
  apply (nothing_flagged_nothing_changed sample_loads sample_str
           (fun _ => always (Raises "429 Resource has been exhausted")) 0
           ["B: normal line"; "C: </TO_GENERALIZE> only"]).
  intros line Hin.
  apply elem_of_cons in Hin as [-> | Hin]; [reflexivity|].
  apply list_elem_of_singleton in Hin as ->. reflexivity.
Defined.

(** X18: when every request fails with an error that is no rate limit, a
    first run still ends.  It keeps the original text of every span,
    reports no loss, and writes the document that reassembly with the
    original texts gives: one entry for every line, in order; a line
    without a flagged span as it was; a flagged line
    [t <TO_GENERALIZE> body </TO_GENERALIZE> u] as [t], [body], and [u]
    with every further pair of [u] replaced by [body] as well, which is
    [u] itself when it holds no further pair. *)
Theorem failing_service_keeps_originals
    (json_loads : string -> json + string) (py_str : json -> string)
    (service : nat -> nat -> reply) (fuel : nat) (lines : list string) :
  (forall j batch n, n < max_retries -> exists error_str,
      attempt json_loads batch (service j n) = inr error_str
      /\ is_rate_limit error_str = false) ->
  exists out,
    process_dataset json_loads py_str service (max_retries + fuel) (fresh lines)
    = Finished (JStr <$> dirty_texts lines)
        (seq 0 (length (make_batches BATCH_SIZE (dirty_texts lines)))) None
        (World (Some lines) None (Some out))
    /\ reassemble py_str lines (dirty_indices lines) (JStr <$> dirty_texts lines)
       = Some out
    /\ length out = length lines
    /\ (forall i line,
          lines !! i = Some line -> re_search line = None ->
          out !! i = Some line)
    /\ (forall i line t body u,
          lines !! i = Some line -> re_search line = Some (t, body, u) ->
          line = t +:+ open_tag +:+ body +:+ close_tag +:+ u
          /\ out !! i = Some (t +:+ body +:+ re_sub body u)
          /\ (re_search u = None -> out !! i = Some (t +:+ body +:+ u))).
Proof.
  intros Hfail.
  destruct (batch_loop_fallback json_loads service (max_retries + fuel) 0
              (make_batches BATCH_SIZE (dirty_texts lines))
              (loop_start (fresh lines)))
    as (st & Hloop & Hcl).
  { rewrite loop_start_fresh. simpl. set_solver. }
  { intros j batch _. apply retry_loop_two_failures. intros n Hn.
    apply Hfail, Hn. }
  rewrite concat_make_batches in Hcl by (unfold BATCH_SIZE; lia).
  simpl in Hcl.
  pose proof (process_dataset_cases json_loads py_str service
                (max_retries + fuel) (fresh lines) lines eq_refl) as H.
  destruct (process_dataset json_loads py_str service (max_retries + fuel)
              (fresh lines)) as [acc ran report w'| |] eqn:Hrun.
  - destruct H as (st1 & Hl1 & Hacc & _ & _ & Hw).
    rewrite Hloop in Hl1. injection Hl1 as <-. rewrite Hcl in Hacc. subst acc.
    destruct (fresh_run_facts json_loads py_str service (max_retries + fuel)
                lines _ _ _ _ Hrun) as (_ & -> & ->).
    exists (rebuilt py_str (JStr <$> dirty_texts lines) 0 lines).
    assert (Hpad : pad_with_originals (JStr <$> dirty_texts lines) lines
                   = JStr <$> dirty_texts lines).
    { unfold pad_with_originals. rewrite drop_ge by now rewrite length_fmap.
      simpl. now rewrite app_nil_r. }
    rewrite Hw, Hpad. split; [reflexivity|].
    split; [apply reassemble_rebuilt; now rewrite length_fmap, length_dirty|].
    split; [apply length_rebuilt|]. split.
    + intros i line Hi E. now apply rebuilt_lookup_plain.
    + intros i line t body u Hi E.
      destruct (rebuilt_lookup_flagged py_str (JStr <$> dirty_texts lines)
                  0 0 lines i line t body u Hi E) as (k & Hk & ->).
      simpl in *.
      assert (Htxt : dirty_texts lines !! k = Some body).
      { unfold dirty_texts. now rewrite list_lookup_fmap, Hk. }
      rewrite list_lookup_fmap, Htxt. simpl.
      split; [now apply re_search_Some|].
      split; [now rewrite re_sub_eq, E|]. intros Eu.
      now rewrite re_sub_eq, E, (re_sub_eq _ u), Eu.
  - contradiction.
  - rewrite Hloop in H. discriminate.
Qed.

Lemma failing_service_keeps_originals_witness :
  exists out,
    process_dataset sample_loads sample_str
      (fun _ => always (Raises "500 Internal error")) (max_retries + 0)
      (fresh [two_pairs_line; "B: normal line"])
    = Finished [JStr "a"] [0] None
        (World (Some [two_pairs_line; "B: normal line"]) None (Some out))
    /\ out !! 0 = Some "a and a!"
    /\ out !! 1 = Some "B: normal line".
Proof.
  destruct (failing_service_keeps_originals sample_loads sample_str
              (fun _ => always (Raises "500 Internal error")) 0
              [two_pairs_line; "B: normal line"])
    as (out & Hrun & _ & _ & Hplain & Hflag).
  { intros j batch n _. exists "500 Internal error". split; reflexivity. }
  exists out. split; [exact Hrun|]. split.
  - destruct (Hflag 0 two_pairs_line EmptyString "a"
                " and <TO_GENERALIZE>b</TO_GENERALIZE>!" eq_refl eq_refl)
      as (_ & Hout & _).
    exact Hout.
  - exact (Hplain 1 "B: normal line" eq_refl eq_refl).
Defined.

Lemma concat_take_batches {A} (texts : list A) (size n : nat) :
  1 <= size ->
  concat (take n (make_batches size texts)) = take (n * size) texts.
Proof.
  intros Hs. destruct (batch_count texts size Hs) as [Hup _].
  rewrite make_batches_chunks, <- fmap_take, take_seq, concat_chunks.
  destruct (Nat.le_gt_cases n ((length texts + size - 1) / size)) as [Hle|Hgt].
  - now rewrite Nat.min_l.
  - rewrite Nat.min_r by lia. rewrite !take_ge; [reflexivity | nia | exact Hup].
Qed.

(** X19: the checkpoint follows the loop.  The files that a first run leaves
    after [n] rounds of its batch loop hold the input untouched, no output,
    and a checkpoint that lists exactly the batches of those rounds and has
    one accumulated text for each of their spans: [n * BATCH_SIZE] texts,
    or all of them. *)
Theorem checkpoint_follows_the_loop
    (json_loads : string -> json + string) (service : nat -> nat -> reply)
    (fuel : nat) (lines : list string) (n : nat) (w1 : world) :
  interrupted_run json_loads service fuel n (fresh lines) = Some w1 ->
  input_file w1 = Some lines
  /\ output_file w1 = None
  /\ (forall j, j ∈ completed_batches (load_checkpoint w1) <->
                j < n /\ j < length (make_batches BATCH_SIZE (dirty_texts lines)))
  /\ length (cleaned_texts (load_checkpoint w1))
     = Nat.min (n * BATCH_SIZE) (length (dirty_indices lines)).
Proof.
  unfold interrupted_run. cbn [input_file fresh].
  destruct (batch_loop json_loads service fuel 0
              (take n (make_batches BATCH_SIZE (dirty_texts lines)))
              (loop_start (fresh lines))) as [stn|] eqn:En; [|discriminate].
  simpl. intros [= <-].
  destruct (batch_loop_checkpoint _ _ _ _ _ _ _ En eq_refl eq_refl)
    as (Hc & Hcl & Hi & Ho).
  destruct (batch_loop_processed _ _ _ _ _ _ _ En) as [_ Hmem].
  apply batch_loop_length in En; [|rewrite loop_start_fresh; simpl; set_solver].
  rewrite loop_start_fresh in *. simpl in Hc, Hcl, Hi, Ho, Hmem, En.
  split; [exact Hi|]. split; [exact Ho|]. split.
  - intros j. rewrite <- (elem_of_list_to_set (C := gset nat)), Hc, Hmem.
    rewrite length_take. split.
    + intros [Hin | Hj]; [now apply not_elem_of_empty in Hin | lia].
    + intros Hj. right. lia.
  - rewrite Hcl, En.
    rewrite concat_take_batches by (unfold BATCH_SIZE; lia).
    now rewrite length_take, length_dirty.
Qed.

Lemma checkpoint_follows_the_loop_witness :
  length (cleaned_texts
            (load_checkpoint
               (resuming long_doc
                  (Checkpoint [0] (JStr <$> replicate 50 "x")))))
  = Nat.min (1 * BATCH_SIZE) (length (dirty_indices long_doc)).
Proof.
  apply (checkpoint_follows_the_loop sample_loads
           (fun _ => always (Raises "500 Internal error")) 5 long_doc 1
           (resuming long_doc (Checkpoint [0] (JStr <$> replicate 50 "x")))).
  vm_compute. reflexivity.
Defined.

(** * The message processor: properties *)

Module InstagramFacts.

Import Instagram.

(** ** Sorting and segmenting *)

Lemma insert_by_time_perm (m : message) (l : list message) :
  insert_by_time m l ≡ₚ m :: l.
Proof.
  induction l as [|x l IH]; [reflexivity|]. simpl.
  destruct (timestamp_ms m <=? timestamp_ms x)%Z; [reflexivity|].
  rewrite IH. apply Permutation_swap.
Qed.

Lemma sorted_by_time_perm (l : list message) : sorted_by_time l ≡ₚ l.
Proof.
  induction l as [|x l IH]; [reflexivity|].
  simpl. rewrite insert_by_time_perm. now rewrite IH.
Qed.

Lemma insert_by_time_sorted (m : message) (l : list message) :
  StronglySorted by_time l -> StronglySorted by_time (insert_by_time m l).
Proof.
  induction l as [|x l IH]; intros Hs; simpl.
  - repeat constructor.
  - apply StronglySorted_inv in Hs as [Hl Hx].
    destruct (Z.leb_spec (timestamp_ms m) (timestamp_ms x)) as [Hle|Hgt].
    + constructor; [now constructor|]. constructor; [exact Hle|].
      eapply Forall_impl; [exact Hx|]. unfold by_time. intros y Hy. lia.
    + constructor; [now apply IH|].
      rewrite insert_by_time_perm. constructor; [unfold by_time; lia | exact Hx].
Qed.

Lemma sorted_by_time_sorted (l : list message) :
  StronglySorted by_time (sorted_by_time l).
Proof.
  induction l as [|x l IH]; [constructor|].
  simpl. now apply insert_by_time_sorted.
Qed.

Lemma concat_segment_from self prev current rest :
  concat (segment_from self prev current rest) = current ++ rest.
Proof.
  revert prev current. induction rest as [|m rest IH]; intros prev current; simpl.
  - destruct current; simpl; now rewrite ?app_nil_r.
  - destruct (is_new_conversation self prev m); simpl.
    + now rewrite IH.
    + now rewrite IH, <- app_assoc.
Qed.

Lemma no_break_snoc self current prev m :
  last current = Some prev -> no_break self current ->
  is_new_conversation self prev m = false ->
  no_break self (current ++ [m]).
Proof.
  intros Hlast Hnb Hm j a b Ha Hb.
  destruct (Nat.lt_ge_cases (S j) (length current)) as [Hlt|Hge].
  - rewrite lookup_app_l in Ha, Hb by lia. eapply Hnb; eauto.
  - apply lookup_lt_Some in Hb as Hlen. rewrite length_app in Hlen.
    simpl in Hlen. assert (S j = length current) as Hj by lia.
    rewrite lookup_app_l in Ha by lia.
    rewrite lookup_app_r, Hj, Nat.sub_diag in Hb by lia.
    injection Hb as <-.
    rewrite last_lookup in Hlast.
    replace (Nat.pred (length current)) with j in Hlast by lia.
    rewrite Hlast in Ha. injection Ha as <-. exact Hm.
Qed.

Lemma segment_from_spec self prev current rest :
  current <> [] -> last current = Some prev -> no_break self current ->
  Forall (fun c => c <> [] /\ no_break self c)
    (segment_from self prev current rest)
  /\ breaks_between self (segment_from self prev current rest)
  /\ exists more tl,
       segment_from self prev current rest = (current ++ more) :: tl.
Proof.
  revert prev current. induction rest as [|m rest IH];
    intros prev current Hne Hlast Hnb; simpl.
  - destruct current as [|x current]; [congruence|].
    split; [repeat constructor; [congruence | exact Hnb]|]. split.
    + intros i c1 c2 _ H2. destruct i; discriminate.
    + exists [], []. now rewrite app_nil_r.
  - destruct (is_new_conversation self prev m) eqn:Hm.
    + destruct (IH m [m]) as (Hall & Hbr & more & tl & Heq);
        [discriminate | reflexivity | |].
      { intros j a b Ha Hb. destruct j; discriminate. }
      split; [constructor; [split; assumption | exact Hall]|]. split.
      * intros i c1 c2 H1 H2. destruct i as [|i].
        -- simpl in H1, H2. injection H1 as <-. rewrite Heq in H2.
           simpl in H2. injection H2 as <-. exists prev, m. auto.
        -- simpl in H1, H2. eapply Hbr; eauto.
      * exists [], (segment_from self m [m] rest). now rewrite app_nil_r.
    + destruct (IH m (current ++ [m])) as (Hall & Hbr & more & tl & Heq).
      * now destruct current.
      * now rewrite last_snoc.
      * eapply no_break_snoc; eauto.
      * split; [exact Hall|]. split; [exact Hbr|].
        exists (m :: more), tl. rewrite Heq. now rewrite <- app_assoc.
Qed.

(** X20: no message is lost or repeated by the segmentation, and the order
    is that of time: the conversations, one after the other, list exactly
    the messages on or after the start date, sorted by timestamp; and no
    conversation is empty. *)
Theorem segments_cover_the_messages (self : processor) (msgs : list message) :
  let kept :=
    filter (fun msg => (start_timestamp_ms self <= timestamp_ms msg)%Z) msgs in
  concat (segment_conversations self msgs) = sorted_by_time kept
  /\ concat (segment_conversations self msgs) ≡ₚ kept
  /\ StronglySorted by_time (concat (segment_conversations self msgs))
  /\ Forall (fun c => c <> []) (segment_conversations self msgs).
Proof.
  intros kept.
  assert (E : concat (segment_conversations self msgs) = sorted_by_time kept
              /\ Forall (fun c => c <> []) (segment_conversations self msgs)).
  { unfold segment_conversations. destruct msgs as [|m0 msgs]; [now split|].
    fold kept. destruct (sorted_by_time kept) as [|first rest]; [now split|].
    split; [apply concat_segment_from|].
    destruct (segment_from_spec self first [first] rest) as (Hall & _);
      [discriminate | reflexivity | |].
    { intros j a b Ha Hb. destruct j; discriminate. }
    eapply Forall_impl; [exact Hall|]. now intros c [Hc _]. }
  destruct E as [E Hne]. rewrite E.
  split; [reflexivity|]. split; [apply sorted_by_time_perm|].
  split; [apply sorted_by_time_sorted | exact Hne].
Qed.

(** X21: the conversations are cut where [is_new_conversation] says so, and
    only there: between two messages that follow each other in one
    conversation it is false, and between the last message of a
    conversation and the first of the next it is true. *)
Theorem segments_break_where_new (self : processor) (msgs : list message) :
  Forall (no_break self) (segment_conversations self msgs)
  /\ breaks_between self (segment_conversations self msgs).
Proof.
  unfold segment_conversations. destruct msgs as [|m0 msgs].
  { split; [constructor|]. intros i c1 c2 H1. destruct i; discriminate. }
  destruct (sorted_by_time _) as [|first rest].
  { split; [constructor|]. intros i c1 c2 H1. destruct i; discriminate. }
  destruct (segment_from_spec self first [first] rest) as (Hall & Hbr & _);
    [discriminate | reflexivity | |].
  { intros j a b Ha Hb. destruct j; discriminate. }
  split; [|exact Hbr].
  eapply Forall_impl; [exact Hall|]. now intros c [_ Hc].
Qed.

Example sample_thread_segments :
  (fun c : list message => timestamp_ms <$> c)
    <$> segment_conversations me sample_thread
  = [[1000; 2000; 3000]; [8000000; 9000000]]%Z.
Proof. vm_compute. reflexivity. Qed.

(** ** Cleaning a message *)

(** X22: a message whose content has one of the skip phrases in it, in any
    mix of upper and lower case, gives no text; and a text that a message
    with content gives is that content without the whitespace around
    it. *)
Theorem clean_message_content_of_content (msg : message) (c : string) :
  content msg = Some c ->
  (forall before phrase after,
      c = before +:+ phrase +:+ after ->
      Str.lower phrase ∈ skip_phrases ->
      clean_message_content msg = None)
  /\ (forall t,
        clean_message_content msg = Some t ->
        t = Str.strip c /\ no_outer_space t).
Proof.
  intros Hc. unfold clean_message_content. rewrite Hc. split.
  - intros before phrase after -> Hin.
    assert (E : existsb (fun p => Str.contains p
                  (Str.lower (before +:+ phrase +:+ after))) skip_phrases = true).
    { apply existsb_exists. exists (Str.lower phrase).
      split; [now apply list_elem_of_In|].
      rewrite !lower_app. apply contains_app. }
    now rewrite E.
  - intros t. destruct (existsb _ _); [discriminate|].
    intros [= <-]. split; [reflexivity | apply strip_no_outer_space].
Qed.

Lemma clean_message_content_of_content_witness :
  clean_message_content
    (Message "Ann" 3000 (Some "Ann liked a message") false false) = None.
Proof.
  destruct (clean_message_content_of_content
              (Message "Ann" 3000 (Some "Ann liked a message") false false)
              "Ann liked a message" eq_refl) as [Hskip _].
  apply (Hskip "Ann " "liked a message" EmptyString); [reflexivity|].
  unfold skip_phrases. vm_compute. left.
Defined.

(** ** Formatting a conversation *)

Lemma role_of_assistant (self : processor) (sender : string) :
  role_of self sender = Assistant <-> sender = your_name self.
Proof.
  unfold role_of. destruct (String.eqb_spec sender (your_name self)); split;
    (congruence || discriminate || auto).
Qed.

(** What [flush] does when it adds a message, and when it adds none. *)
Lemma flush_cases self formatted prev acc :
  (exists sender, prev = Some sender /\ sender <> EmptyString /\ acc <> []
     /\ flush self formatted prev acc =
        formatted ++ [TrainingMessage (role_of self sender)
                        (combined_as (role_of self sender) acc)
                        (match formatted with [] => true | _ => false end)])
  \/ ((prev = None \/ prev = Some EmptyString \/ acc = [])
      /\ flush self formatted prev acc = formatted).
Proof.
  unfold flush. destruct acc as [|t acc]; [right; auto|].
  destruct prev as [sender|]; [|right; auto].
  destruct (String.eqb_spec sender EmptyString) as [->|Hne]; [right; auto|].
  left. exists sender.
  split; [reflexivity|]. split; [exact Hne|]. split; [discriminate|].
  unfold role_of, combined_as.
  now destruct (String.eqb sender (your_name self)).
Qed.

Section FormatFacts.

Variable self : processor.
Variable conversation : list message.

Lemma format_loop_combines rest formatted prev acc :
  (forall msg, msg ∈ rest -> msg ∈ conversation) ->
  Forall (combines self conversation) formatted ->
  (forall t, t ∈ acc ->
     exists msg, msg ∈ conversation /\ Some (sender_name msg) = prev
                 /\ clean_message_content msg = Some t) ->
  Forall (combines self conversation) (format_loop self rest formatted prev acc).
Proof.
  assert (Hflush : forall formatted prev acc,
    Forall (combines self conversation) formatted ->
    (forall t, t ∈ acc ->
       exists msg, msg ∈ conversation /\ Some (sender_name msg) = prev
                   /\ clean_message_content msg = Some t) ->
    Forall (combines self conversation) (flush self formatted prev acc)).
  { clear. intros formatted prev acc Hf Hacc.
    destruct (flush_cases self formatted prev acc)
      as [(sender & -> & Hne & Hacc0 & ->) | [_ ->]]; [|exact Hf].
    apply Forall_app. split; [exact Hf|]. constructor; [|constructor].
    exists sender, acc. repeat split; try assumption.
    intros t Ht. destruct (Hacc t Ht) as (msg & Hin & [= Hs] & Hc). eauto. }
  revert formatted prev acc.
  induction rest as [|msg rest IH]; intros formatted prev acc Hsub Hf Hacc; simpl.
  - now apply Hflush.
  - assert (Hrest : forall m, m ∈ rest -> m ∈ conversation)
      by (intros m Hm; apply Hsub; now right).
    destruct (clean_message_content msg) as [c|] eqn:Hc; [|now apply IH].
    destruct (decide (Some (sender_name msg) = prev)) as [Hsame|Hdiff].
    + apply IH; [exact Hrest | exact Hf|].
      intros t Ht. apply elem_of_app in Ht as [Ht|Ht]; [now apply Hacc|].
      apply list_elem_of_singleton in Ht as ->.
      exists msg. repeat split; [apply Hsub; left | exact Hsame | exact Hc].
    + apply IH; [exact Hrest | now apply Hflush|].
      intros t Ht. apply list_elem_of_singleton in Ht as ->.
      exists msg. repeat split; [apply Hsub; left | exact Hc].
Qed.

Lemma start_marked_once_snoc formatted r text :
  start_marked_once formatted ->
  start_marked_once
    (formatted ++ [TrainingMessage r text
                     (match formatted with [] => true | _ => false end)]).
Proof.
  intros Hm i tm Hi.
  destruct (Nat.lt_ge_cases i (length formatted)) as [Hlt|Hge].
  - rewrite lookup_app_l in Hi by exact Hlt. now apply Hm.
  - rewrite lookup_app_r in Hi by exact Hge.
    destruct (i - length formatted) as [|k] eqn:Ek; [|discriminate].
    simpl in Hi. injection Hi as <-. simpl.
    destruct formatted; simpl in *; split; (lia || congruence || reflexivity).
Qed.

Lemma format_loop_start rest formatted prev acc :
  start_marked_once formatted ->
  start_marked_once (format_loop self rest formatted prev acc).
Proof.
  assert (Hflush : forall formatted prev acc,
    start_marked_once formatted ->
    start_marked_once (flush self formatted prev acc)).
  { clear. intros formatted prev acc Hm.
    destruct (flush_cases self formatted prev acc)
      as [(sender & -> & _ & _ & ->) | [_ ->]]; [|exact Hm].
    now apply start_marked_once_snoc. }
  revert formatted prev acc.
  induction rest as [|msg rest IH]; intros formatted prev acc Hm; simpl.
  - now apply Hflush.
  - destruct (clean_message_content msg); [|now apply IH].
    destruct (decide _); apply IH; [exact Hm | now apply Hflush].
Qed.

Hypothesis senders_named :
  forall msg, msg ∈ conversation -> sender_name msg <> EmptyString.

Lemma no_assistant_twice_snoc formatted tm :
  no_assistant_twice formatted ->
  (forall a, last formatted = Some a ->
     ~ (msg_role a = Assistant /\ msg_role tm = Assistant)) ->
  no_assistant_twice (formatted ++ [tm]).
Proof.
  intros Hn Hlast i a b Ha Hb.
  destruct (Nat.lt_ge_cases (S i) (length formatted)) as [Hlt|Hge].
  - rewrite lookup_app_l in Ha, Hb by lia. eapply Hn; eauto.
  - apply lookup_lt_Some in Hb as Hlen. rewrite length_app in Hlen.
    simpl in Hlen. assert (S i = length formatted) as Hi by lia.
    rewrite lookup_app_l in Ha by lia.
    rewrite lookup_app_r, Hi, Nat.sub_diag in Hb by lia.
    injection Hb as <-. apply Hlast. rewrite last_lookup.
    now replace (Nat.pred (length formatted)) with i by lia.
Qed.

Lemma format_loop_no_assistant_twice rest formatted prev acc :
  (forall msg, msg ∈ rest -> msg ∈ conversation) ->
  no_assistant_twice formatted ->
  (forall a, last formatted = Some a -> msg_role a = Assistant ->
     prev <> Some (your_name self)) ->
  match prev with
  | None => acc = [] /\ formatted = []
  | Some sender => sender <> EmptyString /\ acc <> []
  end ->
  no_assistant_twice (format_loop self rest formatted prev acc).
Proof.
  assert (Hflush : forall formatted prev acc,
    no_assistant_twice formatted ->
    (forall a, last formatted = Some a -> msg_role a = Assistant ->
       prev <> Some (your_name self)) ->
    no_assistant_twice (flush self formatted prev acc)
    /\ forall a, last (flush self formatted prev acc) = Some a ->
         msg_role a = Assistant ->
         (prev = Some (your_name self) /\ prev <> None /\ acc <> [])
         \/ (last formatted = Some a
             /\ flush self formatted prev acc = formatted)).
  { clear. intros formatted prev acc Hn Hlast.
    destruct (flush_cases self formatted prev acc)
      as [(sender & -> & Hne & Hacc0 & ->) | [_ ->]].
    - split.
      + apply no_assistant_twice_snoc; [exact Hn|].
        intros a Ha [Hra Hrt]. simpl in Hrt.
        apply role_of_assistant in Hrt. subst sender.
        now apply (Hlast a Ha Hra).
      + intros a Ha Hr. rewrite last_snoc in Ha. injection Ha as <-.
        simpl in Hr. apply role_of_assistant in Hr. subst sender.
        left. repeat split; [discriminate | exact Hacc0].
    - split; [exact Hn|]. intros a Ha Hr. right. auto. }
  revert formatted prev acc.
  induction rest as [|msg rest IH];
    intros formatted prev acc Hsub Hn Hlast Hshape; simpl.
  - now apply Hflush.
  - assert (Hrest : forall m, m ∈ rest -> m ∈ conversation)
      by (intros m Hm; apply Hsub; now right).
    destruct (clean_message_content msg) as [c|] eqn:Hc; [|now apply IH].
    destruct (decide (Some (sender_name msg) = prev)) as [Hsame|Hdiff].
    + apply IH; [exact Hrest | exact Hn | exact Hlast|].
      subst prev. destruct Hshape as [Hs _]. split; [exact Hs|].
      now destruct acc.
    + destruct (Hflush formatted prev acc Hn Hlast) as [Hn' Hlast'].
      apply IH; [exact Hrest | exact Hn' | |].
      * intros a Ha Hr [= Hs].
        destruct (Hlast' a Ha Hr) as [(Hp & _) | (Ha0 & Hsame)].
        -- apply Hdiff. now rewrite Hp, Hs.
        -- destruct prev as [sender|].
           ++ destruct Hshape as [Hs0 Hacc0].
              destruct (flush_cases self formatted (Some sender) acc)
                as [(s & [= <-] & _ & _ & Hfl) | [[?|[[= ->]|?]] _]];
                try congruence.
              rewrite Hfl in Hsame.
              apply (f_equal length) in Hsame. rewrite length_app in Hsame.
              simpl in Hsame. lia.
           ++ destruct Hshape as [_ ->]. discriminate.
      * split; [apply senders_named, Hsub; left | discriminate].
Qed.

End FormatFacts.

(** A text between the two tags is flagged by the extractor of the
    pipeline, the match beginning at its first character. *)
Lemma wrapped_is_flagged (body : string) :
  exists g u,
    re_search (open_tag +:+ body +:+ close_tag) = Some (EmptyString, g, u).
Proof.
  unfold re_search. rewrite split_on_eq, strip_prefix_app.
  destruct (split_on_app close_tag body EmptyString) as (g & u & E).
  rewrite app_nil_r_str in E. rewrite E. eauto.
Qed.

(** X23: every message that [format_for_training] builds for a conversation
    is the join, with newlines, of the cleaned texts of one or more
    messages of that conversation, all by one sender with a name; its role
    is assistant when that sender is [your_name] and user otherwise; the
    text of a user message, and only that, is put between the delimiters,
    so that the extractor of the pipeline flags it. *)
Theorem formatted_messages_combine (self : processor)
    (conversation : list message) :
  Forall (combines self conversation) (format_loop self conversation [] None [])
  /\ forall tm, tm ∈ format_loop self conversation [] None [] ->
       msg_role tm = User ->
       exists g u, re_search (msg_content tm) = Some (EmptyString, g, u).
Proof.
  assert (H : Forall (combines self conversation)
                (format_loop self conversation [] None [])).
  { apply format_loop_combines; [auto | constructor|].
    intros t Ht. inversion Ht. }
  split; [exact H|]. intros tm Hin Hrole.
  rewrite Forall_forall in H.
  destruct (H tm Hin) as (sender & texts & _ & _ & _ & Hr & Hc).
  rewrite Hc, <- Hr, Hrole. apply wrapped_is_flagged.
Qed.

(** X24: the start of a conversation is marked on its first formatted
    message and on no other. *)
Theorem conversation_start_marked_once (self : processor)
    (conversation : list message) :
  start_marked_once (format_loop self conversation [] None []).
Proof.
  apply format_loop_start. intros i tm Hi. destruct i; discriminate.
Qed.

(** X25: when every message of the conversation has a sender name, two
    assistant messages never follow each other: what [your_name] sends in
    a row, with or without skipped messages in between, ends up in one
    message. *)
Theorem assistant_turns_are_merged (self : processor)
    (conversation : list message) :
  (forall msg, msg ∈ conversation -> sender_name msg <> EmptyString) ->
  no_assistant_twice (format_loop self conversation [] None []).
Proof.
  intros Hnamed. apply (format_loop_no_assistant_twice self conversation Hnamed).
  - auto.
  - intros i a b Ha. destruct i; discriminate.
  - discriminate.
  - auto.
Qed.

Lemma assistant_turns_are_merged_witness :
  no_assistant_twice (format_loop me sample_thread [] None []).
Proof.
  apply (assistant_turns_are_merged me sample_thread).
  intros msg Hin. unfold sample_thread in Hin.
  repeat (apply elem_of_cons in Hin as [-> | Hin]; [discriminate|]).
  inversion Hin.
Defined.

(** With a sender whose name is empty the messages of that sender are
    dropped, and the assistant messages around them stay apart. *)
Example nameless_sender_dropped :
  (fun tm => (msg_role tm, msg_content tm))
    <$> format_loop me nameless_thread [] None []
  = [(Assistant, "one"); (Assistant, "three");
     (User, "<TO_GENERALIZE>four</TO_GENERALIZE>")].
Proof. vm_compute. reflexivity. Qed.

Lemma format_from_cons self conv_idx conversation rest :
  format_from self conv_idx (conversation :: rest) =
  (if existsb is_user (format_loop self conversation [] None [])
      && existsb is_assistant (format_loop self conversation [] None [])
      && (2 <=? length (format_loop self conversation [] None []))
   then [TrainingConversation (conv_id conv_idx)
           (format_loop self conversation [] None [])
           (length (format_loop self conversation [] None []))]
   else [])
  ++ format_from self (S conv_idx) rest.
Proof. reflexivity. Qed.

Lemma format_from_spec self conv_idx conversations tc :
  tc ∈ format_from self conv_idx conversations ->
  exists j conversation,
    conversations !! j = Some conversation
    /\ conversation_id tc = conv_id (conv_idx + j)
    /\ messages tc = format_loop self conversation [] None []
    /\ message_count tc = length (messages tc)
    /\ 2 <= length (messages tc)
    /\ existsb is_user (messages tc) = true
    /\ existsb is_assistant (messages tc) = true.
Proof.
  revert conv_idx. induction conversations as [|conversation rest IH];
    intros conv_idx.
  - intros H. inversion H.
  - rewrite format_from_cons. intros H. apply elem_of_app in H as [H|H].
    + destruct (existsb is_user _ && existsb is_assistant _ && _) eqn:Hcond;
        [|inversion H].
      apply andb_true_iff in Hcond as [Hcond Hlen].
      apply andb_true_iff in Hcond as [Hu Ha].
      apply Nat.leb_le in Hlen.
      apply list_elem_of_singleton in H as ->.
      exists 0, conversation. rewrite Nat.add_0_r.
      cbn [conversation_id messages message_count]. auto 10.
    + apply IH in H as (j & c & Hj & Hid & Hrest).
      exists (S j), c. replace (conv_idx + S j) with (S conv_idx + j) by lia.
      auto.
Qed.

(** X26: a conversation is written to the training data only as a real
    exchange.  Every entry of the result stems from one of the given
    conversations, carries the number of that conversation in its id, has
    the formatted messages of that conversation, their count as
    [message_count], at least two of them, and among them a user message
    and an assistant message. *)
Theorem training_data_are_exchanges (self : processor)
    (conversations : list (list message)) (other_person_name : string)
    (tc : training_conversation) :
  tc ∈ format_for_training self conversations other_person_name ->
  exists j conversation,
    conversations !! j = Some conversation
    /\ conversation_id tc = conv_id j
    /\ messages tc = format_loop self conversation [] None []
    /\ message_count tc = length (messages tc)
    /\ 2 <= length (messages tc)
    /\ (exists tm, tm ∈ messages tc /\ msg_role tm = User)
    /\ (exists tm, tm ∈ messages tc /\ msg_role tm = Assistant).
Proof.
  intros H. apply format_from_spec in H
    as (j & c & Hj & Hid & Hm & Hc & Hlen & Hu & Ha).
  exists j, c. repeat (split; [assumption|]). split.
  - apply existsb_exists in Hu as (tm & Hin & Hr).
    exists tm. split; [now apply list_elem_of_In|].
    unfold is_user in Hr. now destruct (msg_role tm).
  - apply existsb_exists in Ha as (tm & Hin & Hr).
    exists tm. split; [now apply list_elem_of_In|].
    unfold is_assistant in Hr. now destruct (msg_role tm).
Qed.

Lemma training_data_are_exchanges_witness :
  exists j conversation,
    segment_conversations me sample_thread !! j = Some conversation
    /\ conversation_id
         (TrainingConversation "conv_0001"
            [TrainingMessage User "<TO_GENERALIZE>[sent photo]</TO_GENERALIZE>" true;
             TrainingMessage Assistant "see you" false] 2)
       = conv_id j.
Proof.
  destruct (training_data_are_exchanges me
              (segment_conversations me sample_thread) "Ann"
              (TrainingConversation "conv_0001"
                 [TrainingMessage User
                    "<TO_GENERALIZE>[sent photo]</TO_GENERALIZE>" true;
                  TrainingMessage Assistant "see you" false] 2))
    as (j & c & Hj & Hid & _).
  - vm_compute. right. left.
  - exists j, c. split; [exact Hj | exact Hid].
Defined.

End InstagramFacts.
